(** * mysql-mcp: the query-dispatch and transaction-safety wrapper of
    [src/index.ts], embedded in Rocq.

    The server is glue around a MySQL connection pool: a regular-expression
    denylist ([checkSQLSecurity]), a length rule ([checkQueryLimits]), three
    executors ([executeQuery], [executeReadOnlyQuery], [executeModifyQuery]),
    an instrumentation wrapper ([withPerformanceMonitoring]) and the request
    handlers.  Strings are sequences of UTF-16 code units as in the JavaScript
    runtime; asynchronous code is embedded as a state-and-exception monad over
    a world that records every call made to the driver; the driver itself is
    an oracle ([Driver]) over which the theorems quantify. *)

From Stdlib Require Import List NArith Bool String Ascii Lia.
Import ListNotations.

Set Implicit Arguments.

(* ================================================================== *)
(** * Part I: definitions *)
(* ================================================================== *)

(** ** JavaScript strings *)

Definition code_unit := N.
Definition js_string := list code_unit.

(** An ASCII literal as a JavaScript string. *)
Definition u16 (s : string) : js_string :=
  map N_of_ascii (list_ascii_of_string s).

(** [js_string] equality, as [===] on strings. *)
Fixpoint js_eqb (a b : js_string) : bool :=
  match a, b with
  | [], [] => true
  | x :: a', y :: b' => if (x =? y)%N then js_eqb a' b' else false
  | _, _ => false
  end.

(** ECMAScript WhiteSpace and LineTerminator code points: what [\s] matches
    and what [String.prototype.trim] strips. *)
Definition isWhiteSpace (c : code_unit) : bool :=
  ((9 <=? c) && (c <=? 13) || (c =? 32) || (c =? 160) || (c =? 5760)
   || (8192 <=? c) && (c <=? 8202) || (c =? 8232) || (c =? 8233)
   || (c =? 8239) || (c =? 8287) || (c =? 12288) || (c =? 65279))%N.

Fixpoint dropWhile {A : Type} (f : A -> bool) (l : list A) : list A :=
  match l with
  | [] => []
  | x :: l' => if f x then dropWhile f l' else l
  end.

Fixpoint takeWhile {A : Type} (f : A -> bool) (l : list A) : list A :=
  match l with
  | [] => []
  | x :: l' => if f x then x :: takeWhile f l' else []
  end.

(** [String.prototype.trim]. *)
Definition trim (s : js_string) : js_string :=
  rev (dropWhile isWhiteSpace (rev (dropWhile isWhiteSpace s))).

(** [String.prototype.split] with a one-unit separator: always at least one
    piece, the empty string giving one empty piece. *)
Fixpoint split (sep : code_unit) (s : js_string) : list js_string :=
  match s with
  | [] => [[]]
  | c :: s' =>
      if (c =? sep)%N then [] :: split sep s'
      else match split sep s' with
           | tok :: toks => (c :: tok) :: toks
           | [] => [[c]]
           end
  end.

Definition SPACE : code_unit := 32%N.

(** Upper-case form of one code unit, as [String.prototype.toUpperCase]
    computes it.  Exact below U+0100 and for every unit whose upper-case form
    consists of ASCII letters only (dotless i, long s, sharp s and the
    ligatures U+FB00 to U+FB06); any other unit is left as it is, which keeps
    it outside ASCII as the runtime does. *)
Definition upper_unit (c : code_unit) : js_string :=
  (if (97 <=? c) && (c <=? 122) then [c - 32]
   else if (224 <=? c) && (c <=? 254) && negb (c =? 247) then [c - 32]
   else if c =? 181 then [924]
   else if c =? 255 then [376]
   else if c =? 223 then [83; 83]
   else if c =? 305 then [73]
   else if c =? 383 then [83]
   else if c =? 64256 then [70; 70]
   else if c =? 64257 then [70; 73]
   else if c =? 64258 then [70; 76]
   else if c =? 64259 then [70; 70; 73]
   else if c =? 64260 then [70; 70; 76]
   else if c =? 64261 then [83; 84]
   else if c =? 64262 then [83; 84]
   else [c])%N.

Definition toUpperCase (s : js_string) : js_string := flat_map upper_unit s.

(** ** Regular expressions of the denylist

    Every pattern of [dangerousPatterns] is one alternative: a sequence of
    terms, each an atom (a pattern character or the class [\s]) with an
    optional greedy quantifier, under the [i] flag. *)

Inductive Atom :=
| PatternCharacter (c : code_unit)
| ClassWhiteSpace.

Inductive Quantifier := Once | ZeroOrMore | OneOrMore.

Record Term := { term_atom : Atom; term_quant : Quantifier }.

Record RegExp := { source : list Term; ignoreCase : bool }.

(** Canonicalize of a code unit under [i] without [u].  Exact on ASCII; a
    unit outside ASCII is never mapped into ASCII by the runtime and is kept
    as it is here, so comparisons with the ASCII pattern characters agree. *)
Definition canonicalize (c : code_unit) : code_unit :=
  (if (97 <=? c) && (c <=? 122) then c - 32 else c)%N.

Definition atomMatches (ic : bool) (a : Atom) (c : code_unit) : bool :=
  match a with
  | PatternCharacter p =>
      if ic then (canonicalize c =? canonicalize p)%N else (c =? p)%N
  | ClassWhiteSpace => isWhiteSpace c
  end.

(** Greedy repetition of a one-unit atom with continuation [k]: take the
    longest run first, give units back one at a time. *)
Fixpoint repeatGreedy (f : code_unit -> bool) (k : js_string -> bool)
  (s : js_string) : bool :=
  match s with
  | c :: s' =>
      if (if f c then repeatGreedy f k s' else false) then true else k s
  | [] => k []
  end.

(** Does the term sequence match at the start of [s]? *)
Fixpoint matchFrom (ic : bool) (p : list Term) (s : js_string) : bool :=
  match p with
  | [] => true
  | t :: p' =>
      let f := atomMatches ic (term_atom t) in
      match term_quant t with
      | Once =>
          match s with
          | c :: s' => if f c then matchFrom ic p' s' else false
          | [] => false
          end
      | ZeroOrMore => repeatGreedy f (matchFrom ic p') s
      | OneOrMore =>
          match s with
          | c :: s' => if f c then repeatGreedy f (matchFrom ic p') s' else false
          | [] => false
          end
      end
  end.

(** [RegExp.prototype.test] of a pattern without [g] or [y]: try every start
    index from 0 to the length. *)
Fixpoint test (r : RegExp) (s : js_string) : bool :=
  if matchFrom (ignoreCase r) (source r) s then true
  else match s with
       | [] => false
       | _ :: s' => test r s'
       end.

(** The words a term sequence denotes. *)
Inductive Matches (ic : bool) : list Term -> js_string -> Prop :=
| Matches_nil : Matches ic [] []
| Matches_once a p c w :
    atomMatches ic a c = true -> Matches ic p w ->
    Matches ic ({| term_atom := a; term_quant := Once |} :: p) (c :: w)
| Matches_star a p rep w :
    Forall (fun c => atomMatches ic a c = true) rep -> Matches ic p w ->
    Matches ic ({| term_atom := a; term_quant := ZeroOrMore |} :: p) (rep ++ w)
| Matches_plus a p c rep w :
    atomMatches ic a c = true ->
    Forall (fun c => atomMatches ic a c = true) rep -> Matches ic p w ->
    Matches ic ({| term_atom := a; term_quant := OneOrMore |} :: p)
      (c :: rep ++ w).

(** [s] has a substring that the pattern denotes. *)
Definition Contains (r : RegExp) (s : js_string) : Prop :=
  exists pre w post,
    s = pre ++ w ++ post /\ Matches (ignoreCase r) (source r) w.

Definition lit (s : string) : list Term :=
  map (fun c => {| term_atom := PatternCharacter c; term_quant := Once |})
    (u16 s).

Definition ws_star : list Term :=
  [{| term_atom := ClassWhiteSpace; term_quant := ZeroOrMore |}].

Definition ws_plus : list Term :=
  [{| term_atom := ClassWhiteSpace; term_quant := OneOrMore |}].

Definition regexp_i (p : list Term) : RegExp :=
  {| source := p; ignoreCase := true |}.

(** ** Configuration and the SQL guard *)

Definition maxQueryLength : N := 4096.

Record SQLSecurityCheck := { safe : bool; reason : option js_string }.

(** The message of the length rule: "SQL 查詢長度超過限制 (4096 字元)". *)
Definition reason_too_long : js_string :=
  (u16 "SQL " ++ [26597; 35426; 38263; 24230; 36229; 36942; 38480; 21046]
   ++ u16 " (4096 " ++ [23383; 20803] ++ u16 ")")%N.

(** The message of the denylist: "檢測到潛在的 SQL 注入攻擊". *)
Definition reason_injection : js_string :=
  ([27298; 28204; 21040; 28507; 22312; 30340] ++ u16 " SQL "
   ++ [27880; 20837; 25915; 25802])%N.

Definition checkQueryLimits (sql : js_string) : SQLSecurityCheck :=
  if (maxQueryLength <? N.of_nat (List.length sql))%N
  then {| safe := false; reason := Some reason_too_long |}
  else {| safe := true; reason := None |}.

Definition dangerousPatterns : list RegExp :=
  [ regexp_i (lit ";" ++ ws_star ++ lit "DROP" ++ ws_plus);
    regexp_i (lit ";" ++ ws_star ++ lit "DELETE" ++ ws_plus ++ lit "FROM"
              ++ ws_plus);
    regexp_i (lit ";" ++ ws_star ++ lit "UPDATE" ++ ws_plus);
    regexp_i (lit ";" ++ ws_star ++ lit "INSERT" ++ ws_plus);
    regexp_i (lit "EXECUTE" ++ ws_plus);
    regexp_i (lit "EXEC" ++ ws_plus);
    regexp_i (lit "INTO" ++ ws_plus ++ lit "OUTFILE");
    regexp_i (lit "INTO" ++ ws_plus ++ lit "DUMPFILE") ].

(** The [for ... of] loop of [checkSQLSecurity]: the first pattern that
    tests true ends it. *)
Fixpoint checkPatterns (ps : list RegExp) (sql : js_string)
  : SQLSecurityCheck :=
  match ps with
  | [] => {| safe := true; reason := None |}
  | pattern :: ps' =>
      if test pattern sql
      then {| safe := false; reason := Some reason_injection |}
      else checkPatterns ps' sql
  end.

Definition checkSQLSecurity (sql : js_string) : SQLSecurityCheck :=
  checkPatterns dangerousPatterns sql.

(** ** Values exchanged with the driver *)

Inductive JsValue := JsUndefined | JsString (s : js_string).

(** A result row: column name to value. *)
Definition Row := list (js_string * js_string).

(** What the driver hands to the query callback: an array of rows, or the
    packet of a statement that returns none. *)
Inductive QueryResult :=
| RowData (rows : list Row)
| OkPacket (affectedRows insertId : N) (message : js_string).

(** A thrown value: an [Error] instance with its message, or anything else. *)
Inductive Thrown := ErrorObject (message : js_string) | OtherValue.

(** The message "未知錯誤". *)
Definition unknown_error : js_string := [26410; 30693; 37679; 35492]%N.

(** [error instanceof Error ? error.message : '未知錯誤']. *)
Definition error_message (error : Thrown) : js_string :=
  match error with
  | ErrorObject m => m
  | OtherValue => unknown_error
  end.

Record SQLExecuteResult := {
  success : bool;
  affectedRows : option N;
  insertId : option N;
  message : option js_string
}.

(** [JSON.stringify(x, null, 2)] is kept as the value it serialises. *)
Inductive Payload :=
| JsonQueryResult (r : QueryResult)
| JsonExecuteResult (r : SQLExecuteResult).

(** The response envelope of a tool call. *)
Record ToolResponse := { content_text : Payload; isError : bool }.

(** The dynamic property read [(result as any)?.affectedRows]. *)
Class HasAffectedRows (T : Type) := affectedRowsOf : T -> option N.

#[global] Instance QueryResult_affectedRows : HasAffectedRows QueryResult :=
  fun r => match r with
           | RowData _ => None
           | OkPacket n _ _ => Some n
           end.

#[global] Instance SQLExecuteResult_affectedRows
  : HasAffectedRows SQLExecuteResult := affectedRows.

#[global] Instance ToolResponse_affectedRows : HasAffectedRows ToolResponse :=
  fun _ => None.

Definition insertIdOf (r : QueryResult) : option N :=
  match r with
  | RowData _ => None
  | OkPacket _ i _ => Some i
  end.

Definition messageOf (r : QueryResult) : option js_string :=
  match r with
  | RowData _ => None
  | OkPacket _ _ m => Some m
  end.

(** ** The world: driver calls, log sink and clock *)

(** One call made to the pool or to the borrowed connection, with whether
    the driver reported success where the code can observe it. *)
Inductive Event :=
| EvGetConnection (ok : bool)
| EvQuery (sql : js_string) (params : list JsValue) (ok : bool)
| EvBeginTransaction (ok : bool)
| EvCommit (ok : bool)
| EvRollback
| EvRelease.

Record QueryLog := {
  timestamp : N;
  operation : js_string;
  log_sql : js_string;
  log_params : list JsValue;
  duration : N;
  log_success : bool;
  log_error : option js_string;
  log_affectedRows : option N
}.

Record World := {
  events : list Event;   (* calls to the driver, oldest first *)
  logs : list QueryLog;  (* entries written by [logQuery], oldest first *)
  clock : N              (* nanoseconds *)
}.

(** The driver and the server behind it: what each call answers after a
    given history of calls, and how long it takes. *)
Record Driver := {
  getConnection_error : list Event -> option Thrown;
  query_result : list Event -> js_string -> list JsValue -> QueryResult + Thrown;
  beginTransaction_error : list Event -> option Thrown;
  commit_error : list Event -> option Thrown;
  elapsed : list Event -> N
}.

(** ** The monad of asynchronous code: state and exceptions *)

Inductive Outcome (A : Type) :=
| Return (a : A)
| Throw (e : Thrown).

Arguments Return {A} a.
Arguments Throw {A} e.

Definition M (A : Type) := World -> Outcome A * World.

Definition ret {A : Type} (a : A) : M A := fun w => (Return a, w).

Definition throw {A : Type} (e : Thrown) : M A := fun w => (Throw e, w).

Definition bind {A B : Type} (m : M A) (k : A -> M B) : M B :=
  fun w =>
    match m w with
    | (Return a, w') => k a w'
    | (Throw e, w') => (Throw e, w')
    end.

(** [try { body } catch (error) { handler }]. *)
Definition try_catch {A : Type} (body : M A) (handler : Thrown -> M A) : M A :=
  fun w =>
    match body w with
    | (Return a, w') => (Return a, w')
    | (Throw e, w') => handler e w'
    end.

(** [try { body } finally { cleanup }]. *)
Definition try_finally {A : Type} (body : M A) (cleanup : M unit) : M A :=
  fun w =>
    match body w with
    | (r, w') =>
        match cleanup w' with
        | (Return _, w'') => (r, w'')
        | (Throw e, w'') => (Throw e, w'')
        end
    end.

Declare Scope js_scope.
Delimit Scope js_scope with js.
Notation "x <- m ;; k" := (bind m (fun x => k))
  (at level 61, m at next level, right associativity) : js_scope.
Notation "m ;; k" := (bind m (fun _ => k))
  (at level 61, right associativity) : js_scope.
Local Open Scope js_scope.

(** [process.hrtime()] and [new Date()] read the clock. *)
Definition hrtime : M N := fun w => (Return (clock w), w).
Definition newDate : M N := fun w => (Return (clock w), w).

(** [logQuery]: one line on the log sink. *)
Definition logQuery (log : QueryLog) : M unit :=
  fun w =>
    (Return tt,
     {| events := events w; logs := logs w ++ [log]; clock := clock w |}).

(** [withPerformanceMonitoring]. *)
Definition withPerformanceMonitoring {T : Type} `{HasAffectedRows T}
  (op sql : js_string) (params : list JsValue) (action : M T) : M T :=
  startTime <- hrtime ;;
  try_catch
    (result <- action ;;
     now <- hrtime ;;
     date <- newDate ;;
     logQuery {| timestamp := date; operation := op; log_sql := sql;
                 log_params := params; duration := now - startTime;
                 log_success := true; log_error := None;
                 log_affectedRows := affectedRowsOf result |} ;;
     ret result)
    (fun error =>
       now <- hrtime ;;
       date <- newDate ;;
       logQuery {| timestamp := date; operation := op; log_sql := sql;
                   log_params := params; duration := now - startTime;
                   log_success := false;
                   log_error := Some (error_message error);
                   log_affectedRows := None |} ;;
       throw error).

(** [SQLOperationType.SELECT]. *)
Definition SELECT : js_string := u16 "SELECT".

(** [sql.trim().split(' ')[0].toUpperCase()]. *)
Definition sqlTypeOf (sql : js_string) : js_string :=
  toUpperCase (hd [] (split SPACE (trim sql))).

Definition SET_READ_ONLY : js_string := u16 "SET SESSION TRANSACTION READ ONLY".
Definition SET_READ_WRITE : js_string :=
  u16 "SET SESSION TRANSACTION READ WRITE".

Definition TABLES_QUERY : js_string :=
  u16 "SELECT table_name FROM information_schema.tables WHERE table_schema = DATABASE()".

Definition COLUMN_METADATA_QUERY : js_string :=
  u16 "SELECT column_name, data_type FROM information_schema.columns "
  ++ u16 "WHERE table_schema = DATABASE() AND table_name = ?".

(** The message "請使用 mysql_query 執行查詢操作". *)
Definition use_mysql_query : js_string :=
  ([35531; 20351; 29992] ++ u16 " mysql_query "
   ++ [22519; 34892; 26597; 35426; 25805; 20316])%N.

(** The message prefix "未知的工具: ". *)
Definition unknown_tool : js_string :=
  [26410; 30693; 30340; 24037; 20855; 58; 32]%N.

(** A connection borrowed from the pool. *)
Inductive PoolConnection := Connection.

(** Did the driver accept the call? *)
Definition accepted (error : option Thrown) : bool :=
  match error with
  | None => true
  | Some _ => false
  end.

Section Server.

Variable drv : Driver.

(** Record a call to the driver; the clock advances by what it took. *)
Definition emit (e : Event) (w : World) : World :=
  {| events := events w ++ [e];
     logs := logs w;
     clock := clock w + elapsed drv (events w) |}.

(** [getConnectionFromPool]: rejects with the pool's error. *)
Definition getConnectionFromPool : M PoolConnection :=
  fun w =>
    match getConnection_error drv (events w) with
    | None => (Return Connection, emit (EvGetConnection true) w)
    | Some error => (Throw error, emit (EvGetConnection false) w)
    end.

(** [executeQueryWithConnection]: rejects with the driver's error. *)
Definition executeQueryWithConnection (connection : PoolConnection)
  (sql : js_string) (params : list JsValue) : M QueryResult :=
  fun w =>
    match query_result drv (events w) sql params with
    | inl results => (Return results, emit (EvQuery sql params true) w)
    | inr error => (Throw error, emit (EvQuery sql params false) w)
    end.

(** [startTransaction]: rejects with the driver's error. *)
Definition startTransaction (connection : PoolConnection) : M unit :=
  fun w =>
    match beginTransaction_error drv (events w) with
    | None => (Return tt, emit (EvBeginTransaction true) w)
    | Some error => (Throw error, emit (EvBeginTransaction false) w)
    end.

(** [rollbackTransaction]: resolves whatever the driver reports. *)
Definition rollbackTransaction (connection : PoolConnection) : M unit :=
  fun w => (Return tt, emit EvRollback w).

(** [await connection.commit()]: the driver's callback-style [commit] is
    called without a callback and is not wrapped in a promise, so what is
    awaited is no promise.  The COMMIT is sent; whether the server accepts
    it is recorded in the history and never seen by the code. *)
Definition commit (connection : PoolConnection) : M unit :=
  fun w =>
    (Return tt, emit (EvCommit (accepted (commit_error drv (events w)))) w).

(** [connection.release()]. *)
Definition release (connection : PoolConnection) : M unit :=
  fun w => (Return tt, emit EvRelease w).

(** [executeModifyQuery]. *)
Definition executeModifyQuery (sql : js_string) (params : list JsValue)
  : M SQLExecuteResult :=
  connection <- getConnectionFromPool ;;
  let securityCheck := checkSQLSecurity sql in
  if negb (safe securityCheck) then
    ret {| success := false; affectedRows := None; insertId := None;
           message := reason securityCheck |}
  else
    let sqlType := sqlTypeOf sql in
    try_finally
      (try_catch
         (withPerformanceMonitoring sqlType sql params
            (startTransaction connection ;;
             result <- executeQueryWithConnection connection sql params ;;
             commit connection ;;
             ret {| success := true;
                    affectedRows := affectedRowsOf result;
                    insertId := insertIdOf result;
                    message := messageOf result |}))
         (fun error =>
            rollbackTransaction connection ;;
            ret {| success := false; affectedRows := None; insertId := None;
                   message := Some (error_message error) |}))
      (release connection).

(** [new Error(check.reason)]: an absent reason gives the empty message. *)
Definition new_Error (reason : option js_string) : Thrown :=
  ErrorObject (match reason with Some m => m | None => [] end).

(** [executeReadOnlyQuery]. *)
Definition executeReadOnlyQuery (sql : js_string) : M ToolResponse :=
  connection <- getConnectionFromPool ;;
  let securityCheck := checkSQLSecurity sql in
  if negb (safe securityCheck) then throw (new_Error (reason securityCheck))
  else
    try_finally
      (try_catch
         (withPerformanceMonitoring SELECT sql []
            (executeQueryWithConnection connection SET_READ_ONLY [] ;;
             startTransaction connection ;;
             results <- executeQueryWithConnection connection sql [] ;;
             rollbackTransaction connection ;;
             executeQueryWithConnection connection SET_READ_WRITE [] ;;
             ret {| content_text := JsonQueryResult results;
                    isError := false |}))
         (fun error =>
            rollbackTransaction connection ;;
            throw error))
      (release connection).

(** [executeQuery]. *)
Definition executeQuery (sql : js_string) (params : list JsValue)
  : M QueryResult :=
  connection <- getConnectionFromPool ;;
  let securityCheck := checkSQLSecurity sql in
  if negb (safe securityCheck) then throw (new_Error (reason securityCheck))
  else
    let limitsCheck := checkQueryLimits sql in
    if negb (safe limitsCheck) then throw (new_Error (reason limitsCheck))
    else
      try_finally
        (withPerformanceMonitoring SELECT sql params
           (executeQueryWithConnection connection sql params))
        (release connection).

(** ** Request handlers *)

Inductive ToolRequest :=
| mysql_query (sql : js_string)
| mysql_execute (sql : js_string) (params : option (list JsValue))
| list_tables
| describe_table (table : option js_string)
| other_tool (name : js_string).

(** The [CallToolRequestSchema] handler. *)
Definition callTool (request : ToolRequest) : M ToolResponse :=
  match request with
  | mysql_query sql => executeReadOnlyQuery sql
  | mysql_execute sql params =>
      let params := match params with Some ps => ps | None => [] end in
      let sqlType := sqlTypeOf sql in
      if js_eqb sqlType SELECT then throw (ErrorObject use_mysql_query)
      else
        result <- executeModifyQuery sql params ;;
        ret {| content_text := JsonExecuteResult result;
               isError := negb (success result) |}
  | list_tables =>
      results <- executeQuery TABLES_QUERY [] ;;
      ret {| content_text := JsonQueryResult results; isError := false |}
  | describe_table table =>
      match table with
      | None | Some [] => throw (ErrorObject (u16 "Table name is required"))
      | Some tableName =>
          results <- executeQuery COLUMN_METADATA_QUERY [JsString tableName] ;;
          ret {| content_text := JsonQueryResult results; isError := false |}
      end
  | other_tool name => throw (ErrorObject (unknown_tool ++ name))
  end.

Record Resource := {
  uri_path : js_string;   (* the href of the resource *)
  mimeType : js_string;
  name : js_string
}.

(** A column of a row in a template literal: absent reads as "undefined". *)
Definition column_text (col : js_string) (row : Row) : js_string :=
  match find (fun kv => js_eqb (fst kv) col) row with
  | Some kv => snd kv
  | None => u16 "undefined"
  end.

(** The base the resource URIs are resolved against,
    [`${host}:${port}`], with the host and port the configuration defaults
    to. *)
Definition resourceBase : js_string :=
  u16 "127.0.0.1" ++ [58%N] ++ u16 "3306".

(** [new URL(url, resourceBase).href].  [resourceBase] starts with a digit:
    the URL parser finds no scheme in it, so it is no absolute URL and
    cannot serve as a base; the constructor throws TypeError "Invalid URL"
    whatever [url] is. *)
Definition new_URL_on_resourceBase (url : js_string) : js_string + Thrown :=
  inr (ErrorObject (u16 "Invalid URL")).

(** The callback of [results.map]: the [uri] field is evaluated first. *)
Definition resource_of_row (row : Row) : Resource + Thrown :=
  match new_URL_on_resourceBase
          (column_text (u16 "table_name") row ++ u16 "/schema") with
  | inr error => inr error
  | inl href =>
      inl {| uri_path := href;
             mimeType := u16 "application/json";
             name := [34%N] ++ column_text (u16 "table_name") row
                     ++ [34%N] ++ u16 " database schema" |}
  end.

(** [Array.prototype.map] with a callback that may throw: the first throw
    ends it. *)
Fixpoint map_throwing {A B : Type} (f : A -> B + Thrown) (l : list A)
  : list B + Thrown :=
  match l with
  | [] => inl []
  | x :: l' =>
      match f x with
      | inr error => inr error
      | inl y =>
          match map_throwing f l' with
          | inr error => inr error
          | inl ys => inl (y :: ys)
          end
      end
  end.

(** The [ListResourcesRequestSchema] handler. *)
Definition listResources : M (list Resource) :=
  results <- executeQuery TABLES_QUERY [] ;;
  match results with
  | RowData rows =>
      match map_throwing resource_of_row rows with
      | inl resources => ret resources
      | inr error => throw error
      end
  | OkPacket _ _ _ => throw (ErrorObject (u16 "results.map is not a function"))
  end.

(** [Array.prototype.pop]. *)
Definition pop (l : list js_string) : JsValue * list js_string :=
  match rev l with
  | [] => (JsUndefined, [])
  | x :: r => (JsString x, rev r)
  end.

Definition SLASH : code_unit := 47%N.

Record ResourceContents := {
  contents_path : js_string;
  contents_text : Payload
}.

(** The [ReadResourceRequestSchema] handler, from the path name of the
    requested URI. *)
Definition readResource (pathname : js_string) : M ResourceContents :=
  let pathComponents := split SLASH pathname in
  let '(schema, pathComponents) := pop pathComponents in
  let '(tableName, pathComponents) := pop pathComponents in
  match schema with
  | JsString s =>
      if js_eqb s (u16 "schema") then
        results <- executeQuery COLUMN_METADATA_QUERY [tableName] ;;
        ret {| contents_path := pathname;
               contents_text := JsonQueryResult results |}
      else throw (ErrorObject (u16 "Invalid resource URI"))
  | JsUndefined => throw (ErrorObject (u16 "Invalid resource URI"))
  end.

End Server.

(** Several driver calls in a row. *)
Definition emits (drv : Driver) (es : list Event) (w : World) : World :=
  fold_left (fun w e => emit drv e w) es w.

(** ** Observations on a history of driver calls *)

Definition is_release (e : Event) : bool :=
  match e with EvRelease => true | _ => false end.

Definition is_acquire (e : Event) : bool :=
  match e with EvGetConnection true => true | _ => false end.

Definition is_commit (e : Event) : bool :=
  match e with EvCommit _ => true | _ => false end.

Definition is_rollback (e : Event) : bool :=
  match e with EvRollback => true | _ => false end.

(** A commit that went through. *)
Definition is_committed (e : Event) : bool :=
  match e with EvCommit true => true | _ => false end.

(** Does the event send something to the database over a connection? *)
Definition touches_database (e : Event) : bool :=
  match e with
  | EvGetConnection _ | EvRelease => false
  | _ => true
  end.

Definition count (f : Event -> bool) (l : list Event) : nat :=
  List.length (filter f l).

(** The entry [withPerformanceMonitoring] writes for an action started at
    [start] that ended with [r] at [finish]. *)
Definition monitored_entry {T : Type} `{HasAffectedRows T}
  (op sql : js_string) (params : list JsValue) (start : N) (r : Outcome T)
  (finish : N) : QueryLog :=
  {| timestamp := finish; operation := op; log_sql := sql;
     log_params := params; duration := finish - start;
     log_success := match r with Return _ => true | Throw _ => false end;
     log_error := match r with
                  | Return _ => None
                  | Throw e => Some (error_message e)
                  end;
     log_affectedRows := match r with
                         | Return a => affectedRowsOf a
                         | Throw _ => None
                         end |}.

Definition add_log (entry : QueryLog) (w : World) : World :=
  {| events := events w; logs := logs w ++ [entry]; clock := clock w |}.

(** The first error the driver gives to the steps [executeReadOnlyQuery]
    runs after history [h], if it gives one. *)
Definition readOnly_failure (drv : Driver) (h : list Event) (sql : js_string)
  : option Thrown :=
  match query_result drv h SET_READ_ONLY [] with
  | inr error => Some error
  | inl _ =>
  match beginTransaction_error drv (h ++ [EvQuery SET_READ_ONLY [] true]) with
  | Some error => Some error
  | None =>
  match query_result drv (h ++ [EvQuery SET_READ_ONLY [] true;
                                EvBeginTransaction true]) sql [] with
  | inr error => Some error
  | inl _ =>
  match query_result drv (h ++ [EvQuery SET_READ_ONLY [] true;
                                EvBeginTransaction true; EvQuery sql [] true;
                                EvRollback]) SET_READ_WRITE [] with
  | inr error => Some error
  | inl _ => None
  end end end end.

(** The first error the driver gives to the begin or to the statement of
    [executeModifyQuery] after history [h], if it gives one. *)
Definition modify_failure (drv : Driver) (h : list Event) (sql : js_string)
  (params : list JsValue) : option Thrown :=
  match beginTransaction_error drv h with
  | Some error => Some error
  | None =>
      match query_result drv (h ++ [EvBeginTransaction true]) sql params with
      | inr error => Some error
      | inl _ => None
      end
  end.

(** ** The MySQL session behind a connection

    How the session reacts to the calls the code makes: a transaction opens
    on a successful begin (which first commits an open one) and closes on
    a successful commit and on rollback; a successful statement takes effect
    at once outside a transaction and at commit inside one; the two SET
    statements switch the access mode of the session. *)

Definition Statement := (js_string * list JsValue)%type.

Record Session := {
  in_transaction : bool;
  read_only : bool;
  pending : list Statement;    (* effects of the open transaction *)
  committed : list Statement   (* durable effects *)
}.

Definition session_step (st : Session) (e : Event) : Session :=
  match e with
  | EvQuery sql params true =>
      let ro := if js_eqb sql SET_READ_ONLY then true
                else if js_eqb sql SET_READ_WRITE then false
                else read_only st in
      if in_transaction st
      then {| in_transaction := true; read_only := ro;
              pending := pending st ++ [(sql, params)];
              committed := committed st |}
      else {| in_transaction := false; read_only := ro;
              pending := pending st;
              committed := committed st ++ [(sql, params)] |}
  | EvBeginTransaction true =>
      {| in_transaction := true; read_only := read_only st;
         pending := [];
         committed := committed st ++ pending st |}
  | EvCommit true =>
      {| in_transaction := false; read_only := read_only st;
         pending := [];
         committed := committed st ++ pending st |}
  | EvRollback =>
      {| in_transaction := false; read_only := read_only st;
         pending := [];
         committed := committed st |}
  | _ => st
  end.

Definition session_after (st : Session) (es : list Event) : Session :=
  fold_left session_step es st.

(** ** The catalog of the server *)

Record TableInfo := {
  table_schema : js_string;
  table_name : js_string;
  table_columns : list (js_string * js_string)   (* name, declared type *)
}.

Record ServerState := {
  current_database : js_string;   (* what DATABASE() returns *)
  catalog : list TableInfo        (* every table of every schema *)
}.

(** A row of [information_schema.tables] projected on [table_name] that
    belongs to a table of the current database. *)
Definition table_row_of_current_database (srv : ServerState) (row : Row)
  : Prop :=
  exists t, In t (catalog srv)
            /\ table_schema t = current_database srv
            /\ row = [(u16 "table_name", table_name t)].

(** A row of [information_schema.columns] projected on [column_name] and
    [data_type] that belongs to a table of the current database. *)
Definition column_row_of_current_database (srv : ServerState) (row : Row)
  : Prop :=
  exists t c, In t (catalog srv)
              /\ table_schema t = current_database srv
              /\ In c (table_columns t)
              /\ row = [(u16 "column_name", fst c); (u16 "data_type", snd c)].

(** The server evaluates the condition [table_schema = DATABASE()] of the
    two catalog statements as SQL defines it: whatever rows it answers them
    with come from tables of the current database. *)
Definition honours_schema_filter (drv : Driver) (srv : ServerState) : Prop :=
  forall h params rows,
    (query_result drv h TABLES_QUERY params = inl (RowData rows) ->
     Forall (table_row_of_current_database srv) rows)
    /\ (query_result drv h COLUMN_METADATA_QUERY params = inl (RowData rows) ->
        Forall (column_row_of_current_database srv) rows).

Fixpoint prefixb (p s : js_string) : bool :=
  match p, s with
  | [], _ => true
  | x :: p', y :: s' => if (x =? y)%N then prefixb p' s' else false
  | _ :: _, [] => false
  end.

(** [String.prototype.includes]. *)
Fixpoint includes (s p : js_string) : bool :=
  if prefixb p s then true
  else match s with
       | [] => false
       | _ :: s' => includes s' p
       end.

Definition SCHEMA_FILTER : js_string := u16 "WHERE table_schema = DATABASE()".

(** ** Concrete drivers, worlds and statements *)

(** A driver that grants every connection and accepts every statement. *)
Definition ok_driver : Driver :=
  {| getConnection_error := fun _ => None;
     query_result := fun _ _ _ => inl (OkPacket 1 0 []);
     beginTransaction_error := fun _ => None;
     commit_error := fun _ => None;
     elapsed := fun _ => 1000%N |}.

Definition duplicate_entry : Thrown :=
  ErrorObject (u16 "ER_DUP_ENTRY: Duplicate entry '1' for key 'PRIMARY'").

(** A driver whose server accepts everything but COMMIT. *)
Definition commit_refusing_driver : Driver :=
  {| getConnection_error := fun _ => None;
     query_result := fun _ _ _ => inl (OkPacket 1 0 []);
     beginTransaction_error := fun _ => None;
     commit_error := fun _ =>
       Some (ErrorObject (u16 "ER_LOCK_DEADLOCK: Deadlock found"));
     elapsed := fun _ => 1000%N |}.

(** A driver whose server refuses every statement but the two SET ones. *)
Definition refusing_driver : Driver :=
  {| getConnection_error := fun _ => None;
     query_result := fun _ sql _ =>
       if js_eqb sql SET_READ_ONLY || js_eqb sql SET_READ_WRITE
       then inl (OkPacket 0 0 [])
       else inr duplicate_entry;
     beginTransaction_error := fun _ => None;
     commit_error := fun _ => None;
     elapsed := fun _ => 1000%N |}.

Definition initial_world : World := {| events := []; logs := []; clock := 0 |}.

(** "SELECT 1; DROP TABLE x" *)
Definition stacked_statement : js_string := u16 "SELECT 1; DROP TABLE x".

(** A modification with a second statement stacked on it. *)
Definition stacked_delete : js_string :=
  u16 "DELETE FROM t WHERE id = 1; DROP TABLE t".

(** A 4097-unit statement that matches no pattern of the denylist. *)
Definition long_statement : js_string :=
  u16 "SELECT '" ++ repeat 97%N 4088 ++ u16 "'".

Definition TAB : code_unit := 9%N.

(** "SELECT<TAB>1" *)
Definition select_tab_statement : js_string := SELECT ++ [TAB] ++ u16 "1".

Definition insert_statement : js_string := u16 "INSERT INTO t VALUES (?)".

(** A server with two schemas, connected to [shop]. *)
Definition demo_server : ServerState :=
  {| current_database := u16 "shop";
     catalog :=
       [ {| table_schema := u16 "shop"; table_name := u16 "orders";
            table_columns := [(u16 "id", u16 "int"); (u16 "total", u16 "decimal")] |};
         {| table_schema := u16 "hr"; table_name := u16 "salaries";
            table_columns := [(u16 "employee", u16 "int"); (u16 "amount", u16 "decimal")] |};
         {| table_schema := u16 "hr"; table_name := u16 "orders";
            table_columns := [(u16 "secret", u16 "text")] |} ] |}.

(** A driver whose server answers the two catalog statements from its
    catalog, restricted as their WHERE clauses say, and refuses anything
    else. *)
Definition catalog_driver (srv : ServerState) : Driver :=
  {| getConnection_error := fun _ => None;
     query_result := fun _ sql params =>
       let mine := filter (fun t => js_eqb (table_schema t)
                                      (current_database srv))
                     (catalog srv) in
       if js_eqb sql TABLES_QUERY then
         inl (RowData (map (fun t => [(u16 "table_name", table_name t)]) mine))
       else if js_eqb sql COLUMN_METADATA_QUERY then
         match params with
         | [JsString n] =>
             inl (RowData
                    (flat_map
                       (fun t => map (fun c => [(u16 "column_name", fst c);
                                                (u16 "data_type", snd c)])
                                   (table_columns t))
                       (filter (fun t => js_eqb (table_name t) n) mine)))
         | _ => inl (RowData [])
         end
       else inr (ErrorObject (u16 "ER_PARSE_ERROR"));
     beginTransaction_error := fun _ => None;
     commit_error := fun _ => None;
     elapsed := fun _ => 1000%N |}.

Definition demo_driver : Driver := catalog_driver demo_server.

(** The only statement text among the events that reach the database. *)
Definition only_statement (sql : js_string) (es : list Event) : Prop :=
  forall e, In e es -> touches_database e = true ->
            exists params ok, e = EvQuery sql params ok.

(** A resource that stands for a table of the current database. *)
Definition resource_of_current_database (srv : ServerState) (r : Resource)
  : Prop :=
  exists t, In t (catalog srv)
            /\ table_schema t = current_database srv
            /\ uri_path r = table_name t ++ u16 "/schema".

(** [k] spells the ASCII word [word] in some mix of upper and lower case. *)
Definition spells (word : string) (k : js_string) : Prop :=
  Forall2 (fun c p => c = p \/ c = (p + 32)%N) k (u16 word).

(** [s] holds a semicolon, optional white space, [word] in any case and one
    white-space unit, in a row. *)
Definition has_stacked (word : string) (s : js_string) : Prop :=
  exists pre ws k c post,
    s = pre ++ [59%N] ++ ws ++ k ++ [c] ++ post
    /\ Forall (fun x => isWhiteSpace x = true) ws
    /\ spells word k
    /\ isWhiteSpace c = true.

(** A run of pattern characters, one term each. *)
Definition lit_units (l : js_string) : list Term :=
  map (fun c => {| term_atom := PatternCharacter c; term_quant := Once |}) l.

(** [token] is the first piece of [s] cut at spaces: it has no space, and
    [s] is [token] alone or [token], a space and a rest. *)
Definition first_space_delimited_token (s token : js_string) : Prop :=
  ~ In SPACE token /\ (s = token \/ exists rest, s = token ++ SPACE :: rest).

(** The leading keyword of a statement as SQL reads it: the longest run of
    ASCII letters after the leading white space, in upper case.  This
    follows the wording of the specification, to be compared with
    [sqlTypeOf]. *)
Definition isAsciiLetter (c : code_unit) : bool :=
  ((65 <=? c) && (c <=? 90) || (97 <=? c) && (c <=? 122))%N.

Definition leading_keyword (sql : js_string) : js_string :=
  toUpperCase (takeWhile isAsciiLetter (dropWhile isWhiteSpace sql)).

(** ** Further observations *)

(** Two statements that differ in the case of ASCII letters only. *)
Definition same_up_to_case (s1 s2 : js_string) : Prop :=
  map canonicalize s1 = map canonicalize s2.

(** "select 1; drop table x" *)
Definition stacked_lower : js_string := u16 "select 1; drop table x".

(** What one handler run may add to the history: nothing; a refused
    acquisition; an acquisition alone; or an acquisition, calls on the
    connection, and its release. *)
Definition bracketed (new : list Event) : Prop :=
  new = []
  \/ new = [EvGetConnection false]
  \/ new = [EvGetConnection true]
  \/ exists mid,
       new = EvGetConnection true :: mid ++ [EvRelease]
       /\ mid <> []
       /\ Forall (fun e => touches_database e = true) mid.

(** A session with no transaction open and nothing pending. *)
Definition idle (st : Session) : Prop :=
  in_transaction st = false /\ pending st = [].

(** One of the two statements that set the access mode of the session. *)
Definition access_mode_statement (s : Statement) : Prop :=
  s = (SET_READ_ONLY, []) \/ s = (SET_READ_WRITE, []).

(** A driver that throws a value that is no [Error] from every statement. *)
Definition odd_driver : Driver :=
  {| getConnection_error := fun _ => None;
     query_result := fun _ _ _ => inr OtherValue;
     beginTransaction_error := fun _ => None;
     commit_error := fun _ => None;
     elapsed := fun _ => 1000%N |}.

(** A table name that reads like a stacked statement. *)
Definition hostile_table_name : js_string := u16 "t'; DROP TABLE t; --".

(** ** The tool list and the dispatch by name *)

(** One property of an input schema: name, type, description. *)
Record SchemaProperty := {
  prop_name : js_string;
  prop_type : js_string;
  prop_description : js_string
}.

(** One entry of the tool list: name, description, and the properties and
    required names of its input schema (an object). *)
Record Tool := {
  tool_name : js_string;
  tool_description : js_string;
  tool_properties : list SchemaProperty;
  tool_required : list js_string
}.

Definition NEWLINE : code_unit := 10%N.

(** The [ListToolsRequestSchema] handler. *)
Definition listTools : list Tool :=
  [ {| tool_name := u16 "mysql_query";
       tool_description :=
         u16 "Execute read-only SELECT queries against the MySQL database."
         ++ [NEWLINE] ++ u16 "- Maximum query length: 4096 characters"
         ++ [NEWLINE] ++ u16 "- Maximum result rows: 1000"
         ++ [NEWLINE] ++ u16 "- Query timeout: 30 seconds";
       tool_properties :=
         [ {| prop_name := u16 "sql"; prop_type := u16 "string";
              prop_description := u16 "SQL SELECT query to execute" |} ];
       tool_required := [u16 "sql"] |};
    {| tool_name := u16 "mysql_execute";
       tool_description :=
         u16 "Execute data modification queries (INSERT/UPDATE/DELETE)."
         ++ [NEWLINE] ++ u16 "- Returns affected rows count and insert ID"
         ++ [NEWLINE] ++ u16 "- Supports parameterized queries"
         ++ [NEWLINE] ++ u16 "- Automatic transaction handling";
       tool_properties :=
         [ {| prop_name := u16 "sql"; prop_type := u16 "string";
              prop_description :=
                u16 "SQL statement (INSERT, UPDATE, or DELETE)" |};
           {| prop_name := u16 "params"; prop_type := u16 "array";
              prop_description := u16 "Parameters for the SQL statement" |} ];
       tool_required := [u16 "sql"] |};
    {| tool_name := u16 "list_tables";
       tool_description := u16 "List all tables in current database";
       tool_properties := [];
       tool_required := [] |};
    {| tool_name := u16 "describe_table";
       tool_description := u16 "Show table structure";
       tool_properties :=
         [ {| prop_name := u16 "table"; prop_type := u16 "string";
              prop_description := u16 "Table name" |} ];
       tool_required := [u16 "table"] |} ].

(** The parameters of a tool call: the name and the arguments the handler
    reads, [sql] being typed as a string by the handler. *)
Record CallToolParams := {
  call_name : js_string;
  call_sql : js_string;
  call_params : option (list JsValue);
  call_table : option js_string
}.

(** The [switch (name)] of the [CallToolRequestSchema] handler. *)
Definition requestOf (p : CallToolParams) : ToolRequest :=
  if js_eqb (call_name p) (u16 "mysql_query") then mysql_query (call_sql p)
  else if js_eqb (call_name p) (u16 "mysql_execute")
  then mysql_execute (call_sql p) (call_params p)
  else if js_eqb (call_name p) (u16 "list_tables") then list_tables
  else if js_eqb (call_name p) (u16 "describe_table")
  then describe_table (call_table p)
  else other_tool (call_name p).

Definition handleCallTool (drv : Driver) (p : CallToolParams)
  : M ToolResponse :=
  callTool drv (requestOf p).

(** A stacked DROP written with comments where white space would be. *)
Definition stacked_without_space : js_string :=
  u16 "SELECT(1);DROP/**/TABLE/**/x".

(** Does the pattern ask for at least one white-space unit somewhere? *)
Definition needs_white_space (r : RegExp) : bool :=
  existsb (fun t => match term_atom t, term_quant t with
                    | ClassWhiteSpace, OneOrMore => true
                    | _, _ => false
                    end) (source r).

(* ================================================================== *)
(** * Part II: properties *)
(* ================================================================== *)

(** ** The matcher against the words it denotes *)

Lemma if_true_iff (a b : bool) :
  (if a then b else false) = true <-> a = true /\ b = true.
Proof. destruct a, b; intuition discriminate. Qed.

Lemma if_or_true_iff (a b : bool) :
  (if a then true else b) = true <-> a = true \/ b = true.
Proof. destruct a, b; intuition discriminate. Qed.

Lemma repeatGreedy_true_iff f k s :
  repeatGreedy f k s = true <->
  exists rep rest, s = rep ++ rest /\ forallb f rep = true /\ k rest = true.
Proof.
  induction s as [|c s IH]; simpl.
  - split.
    + intros H. exists [], []. auto.
    + intros (rep & rest & E & _ & K).
      symmetry in E. apply app_eq_nil in E as [-> ->]. exact K.
  - rewrite if_or_true_iff, if_true_iff, IH. split.
    + intros [[Fc (rep & rest & -> & Fr & K)] | K].
      * exists (c :: rep), rest. simpl. rewrite Fc, Fr. auto.
      * exists [], (c :: s). auto.
    + intros (rep & rest & E & Fr & K). destruct rep as [|c' rep]; simpl in *.
      * right. subst rest. exact K.
      * injection E as <- ->. apply andb_true_iff in Fr as [Fc Fr].
        left. split; [exact Fc|]. exists rep, rest. auto.
Qed.

Lemma forallb_Forall_true (f : code_unit -> bool) l :
  forallb f l = true <-> Forall (fun c => f c = true) l.
Proof.
  rewrite forallb_forall, Forall_forall. reflexivity.
Qed.

Lemma matchFrom_true_iff ic p :
  forall s,
    matchFrom ic p s = true <->
    exists w rest, s = w ++ rest /\ Matches ic p w.
Proof.
  induction p as [|[a q] p IH]; intros s.
  - simpl. split; [|reflexivity].
    intros _. exists [], s. split; [reflexivity|constructor].
  - destruct q; simpl.
    + destruct s as [|c s].
      * split; [discriminate|].
        intros (w & rest & E & M). inversion M; subst. discriminate.
      * rewrite if_true_iff, IH. split.
        -- intros [A (w & rest & -> & M)].
           exists (c :: w), rest. split; [reflexivity|]. now constructor.
        -- intros (w & rest & E & M). inversion M; subst.
           injection E as <- ->. split; [assumption|]. eauto.
    + rewrite repeatGreedy_true_iff. split.
      * intros (rep & rest & -> & Fr & K). apply IH in K as (w & rest' & -> & M).
        exists (rep ++ w), rest'. rewrite app_assoc. split; [reflexivity|].
        constructor; [now apply forallb_Forall_true|assumption].
      * intros (w & rest & -> & M). inversion M; subst.
        exists rep, (w0 ++ rest). rewrite app_assoc. split; [reflexivity|].
        split; [now apply forallb_Forall_true|]. apply IH. eauto.
    + destruct s as [|c s].
      * split; [discriminate|].
        intros (w & rest & E & M). inversion M; subst. discriminate.
      * rewrite if_true_iff, repeatGreedy_true_iff. split.
        -- intros [A (rep & rest & -> & Fr & K)].
           apply IH in K as (w & rest' & -> & M).
           exists (c :: rep ++ w), rest'. simpl. rewrite app_assoc.
           split; [reflexivity|].
           constructor; [assumption|now apply forallb_Forall_true|assumption].
        -- intros (w & rest & E & M). inversion M; subst.
           simpl in E. injection E as <- ->. split; [assumption|].
           exists rep, (w0 ++ rest). rewrite app_assoc. split; [reflexivity|].
           split; [now apply forallb_Forall_true|]. apply IH. eauto.
Qed.

Lemma test_true_iff r s : test r s = true <-> Contains r s.
Proof.
  unfold Contains. induction s as [|c s IH]; simpl.
  - rewrite if_or_true_iff, matchFrom_true_iff. split.
    + intros [(w & rest & E & M)|?]; [|discriminate]. exists [], w, rest. auto.
    + intros (pre & w & post & E & M).
      symmetry in E. apply app_eq_nil in E as [-> E].
      apply app_eq_nil in E as [-> ->]. left. exists [], []. auto.
  - rewrite if_or_true_iff, matchFrom_true_iff, IH. split.
    + intros [(w & rest & E & M) | (pre & w & post & -> & M)].
      * exists [], w, rest. auto.
      * exists (c :: pre), w, post. auto.
    + intros (pre & w & post & E & M). destruct pre as [|c' pre]; simpl in E.
      * left. eauto.
      * injection E as <- ->. right. eauto.
Qed.

Lemma checkPatterns_unsafe_iff ps sql :
  checkPatterns ps sql = {| safe := false; reason := Some reason_injection |}
  <-> exists p, In p ps /\ test p sql = true.
Proof.
  induction ps as [|p ps IH]; simpl.
  - split; [discriminate|]. intros (p & [] & _).
  - destruct (test p sql) eqn:T.
    + split; [|reflexivity]. intros _. exists p. auto.
    + rewrite IH. split.
      * intros (q & I & Tq). exists q. auto.
      * intros (q & [<- | I] & Tq); [congruence|]. exists q. auto.
Qed.

Lemma checkPatterns_cases ps sql :
  checkPatterns ps sql = {| safe := false; reason := Some reason_injection |}
  \/ checkPatterns ps sql = {| safe := true; reason := None |}.
Proof.
  induction ps as [|p ps IH]; simpl; [now right|].
  destruct (test p sql); [now left|exact IH].
Qed.

(** ** What the patterns denote, in plain terms *)

(** Under the [i] flag an upper-case ASCII pattern letter matches itself and
    its lower-case form, and nothing else. *)
Lemma atomMatches_letter p c :
  (65 <= p <= 90)%N ->
  atomMatches true (PatternCharacter p) c = true <-> c = p \/ c = (p + 32)%N.
Proof.
  intros P. unfold atomMatches, canonicalize.
  destruct (N.leb_spec 97 p); [lia|]. cbn [andb].
  destruct (N.leb_spec 97 c), (N.leb_spec c 122); cbn [andb];
    rewrite N.eqb_eq; lia.
Qed.

Lemma atomMatches_semicolon c :
  atomMatches true (PatternCharacter 59%N) c = true <-> c = 59%N.
Proof.
  unfold atomMatches, canonicalize.
  destruct (N.leb_spec 97 59); [lia|]. cbn [andb].
  destruct (N.leb_spec 97 c), (N.leb_spec c 122); cbn [andb];
    rewrite N.eqb_eq; lia.
Qed.

(** A run of pattern characters denotes one unit per character. *)
Lemma Matches_lit_units ic l p w :
  Matches ic (lit_units l ++ p) w <->
  exists k w',
    w = k ++ w'
    /\ Forall2 (fun c pc => atomMatches ic (PatternCharacter pc) c = true) k l
    /\ Matches ic p w'.
Proof.
  revert w. induction l as [|pc l IH]; intros w; simpl.
  - split.
    + intros M. exists [], w. auto.
    + intros (k & w' & -> & F & M). inversion F; subst. exact M.
  - split.
    + intros M. inversion M as [|a p0 c w0 A M0| |]; subst.
      apply IH in M0 as (k & w' & -> & F & M').
      exists (c :: k), w'. auto.
    + intros (k & w' & -> & F & M). inversion F; subst. simpl.
      constructor; [assumption|]. apply IH. eauto.
Qed.

Lemma Matches_ws_star ic p w :
  Matches ic (ws_star ++ p) w <->
  exists rep w',
    w = rep ++ w' /\ Forall (fun x => isWhiteSpace x = true) rep
    /\ Matches ic p w'.
Proof.
  simpl. split.
  - intros M. inversion M; subst. eauto.
  - intros (rep & w' & -> & F & M). now constructor.
Qed.

Lemma Matches_ws_plus ic w :
  Matches ic ws_plus w <->
  exists c rep,
    w = c :: rep /\ isWhiteSpace c = true
    /\ Forall (fun x => isWhiteSpace x = true) rep.
Proof.
  unfold ws_plus. split.
  - intros M. inversion M as [| | |a p0 c rep w0 A F M0]; subst.
    inversion M0; subst. rewrite app_nil_r. eauto.
  - intros (c & rep & -> & C & F). rewrite <- (app_nil_r rep).
    constructor; [assumption|assumption|constructor].
Qed.

(** The stacked-statement patterns [/;\s*WORD\s+/i], for an upper-case ASCII
    word: a semicolon, optional white space, the word in any case, and at
    least one white-space unit. *)
Lemma Contains_stacked word s :
  Forall (fun p => (65 <= p <= 90)%N) (u16 word) ->
  Contains (regexp_i (lit ";" ++ ws_star ++ lit word ++ ws_plus)) s
  <-> has_stacked word s.
Proof.
  intros Upper. unfold Contains, has_stacked, regexp_i. cbn [source ignoreCase].
  assert (Spell : forall k,
             Forall2 (fun c pc => atomMatches true (PatternCharacter pc) c = true)
               k (u16 word) <-> spells word k).
  { unfold spells. intros k. revert Upper. generalize (u16 word).
    intros l. revert k. induction l as [|pc l IH]; intros k U.
    - split; intros F; inversion F; constructor.
    - inversion U; subst. split; intros F; inversion F; subst;
        (constructor; [now apply atomMatches_letter|now apply IH]). }
  change (lit ";") with (lit_units [59%N]).
  change (lit word) with (lit_units (u16 word)).
  split.
  - intros (pre & w & post & -> & M).
    apply Matches_lit_units in M as (k0 & w0 & -> & F0 & M).
    inversion F0 as [|c0 ? ? ? A0 F0']; subst. inversion F0'; subst.
    apply atomMatches_semicolon in A0. subst c0.
    apply Matches_ws_star in M as (ws & w1 & -> & Fws & M).
    apply Matches_lit_units in M as (k & w2 & -> & Fk & M).
    apply Matches_ws_plus in M as (c & rep & -> & C & Frep).
    exists pre, ws, k, c, (rep ++ post). split.
    + simpl. now rewrite <- !app_assoc.
    + split; [assumption|]. split; [now apply Spell|assumption].
  - intros (pre & ws & k & c & post & -> & Fws & Sp & C).
    exists pre, ([59%N] ++ ws ++ k ++ [c]), post. split.
    + now rewrite <- !app_assoc.
    + apply Matches_lit_units. exists [59%N], (ws ++ k ++ [c]).
      split; [reflexivity|]. split.
      { constructor; [now apply atomMatches_semicolon|constructor]. }
      apply Matches_ws_star. exists ws, (k ++ [c]).
      split; [reflexivity|]. split; [assumption|].
      apply Matches_lit_units. exists k, [c].
      split; [reflexivity|]. split; [now apply Spell|].
      apply Matches_ws_plus. exists c, []. auto.
Qed.

(** The DROP pattern of the denylist, read off [Contains_stacked]. *)
Lemma stacked_drop_pattern s :
  Contains (regexp_i (lit ";" ++ ws_star ++ lit "DROP" ++ ws_plus)) s
  <-> has_stacked "DROP" s.
Proof.
  apply Contains_stacked. repeat constructor; discriminate.
Qed.

(** The guard on some statements. *)
Example guard_rejects_stacked_drop :
  checkSQLSecurity (u16 "SELECT 1; DROP TABLE x")
  = {| safe := false; reason := Some reason_injection |}.
Proof. vm_compute. reflexivity. Qed.

Example guard_accepts_single_select :
  checkSQLSecurity (u16 "SELECT * FROM t WHERE id = 1")
  = {| safe := true; reason := None |}.
Proof. vm_compute. reflexivity. Qed.

Example guard_accepts_single_insert :
  checkSQLSecurity (u16 "INSERT INTO t VALUES (1)")
  = {| safe := true; reason := None |}.
Proof. vm_compute. reflexivity. Qed.

Example guard_rejects_into_outfile_any_case :
  checkSQLSecurity (u16 "select * from t into  outfile '/tmp/x'")
  = {| safe := false; reason := Some reason_injection |}.
Proof. vm_compute. reflexivity. Qed.

(** ** C2: the denylist verdict *)

(** C2. For every statement, [checkSQLSecurity] returns the unsafe verdict
    (with its reason) if and only if the statement contains a match of at
    least one of the eight case-insensitive patterns of [dangerousPatterns];
    it returns the safe verdict (no reason) if and only if it contains a
    match of none; and it returns nothing else. *)
Theorem checkSQLSecurity_denylist (sql : js_string) :
  (checkSQLSecurity sql = {| safe := false; reason := Some reason_injection |}
   <-> exists p, In p dangerousPatterns /\ Contains p sql)
  /\ (checkSQLSecurity sql = {| safe := true; reason := None |}
      <-> forall p, In p dangerousPatterns -> ~ Contains p sql)
  /\ (checkSQLSecurity sql = {| safe := false; reason := Some reason_injection |}
      \/ checkSQLSecurity sql = {| safe := true; reason := None |}).
Proof.
  unfold checkSQLSecurity.
  assert (U : checkPatterns dangerousPatterns sql
              = {| safe := false; reason := Some reason_injection |}
              <-> exists p, In p dangerousPatterns /\ Contains p sql).
  { rewrite checkPatterns_unsafe_iff. split.
    - intros (p & I & T). exists p. split; [exact I|now apply test_true_iff].
    - intros (p & I & C). exists p. split; [exact I|now apply test_true_iff]. }
  split; [exact U|]. split; [|apply checkPatterns_cases].
  split.
  - intros S p I C.
    assert (E : checkPatterns dangerousPatterns sql
                = {| safe := false; reason := Some reason_injection |})
      by (apply U; eauto).
    rewrite S in E. discriminate.
  - intros NC. destruct (checkPatterns_cases dangerousPatterns sql) as [E|E];
      [|exact E].
    apply U in E as (p & I & C). exfalso. exact (NC p I C).
Qed.


(** ** Running the executors *)

Lemma checkSQLSecurity_cases sql :
  checkSQLSecurity sql = {| safe := false; reason := Some reason_injection |}
  \/ checkSQLSecurity sql = {| safe := true; reason := None |}.
Proof. apply checkPatterns_cases. Qed.

Lemma checkSQLSecurity_safe sql :
  safe (checkSQLSecurity sql) = true ->
  checkSQLSecurity sql = {| safe := true; reason := None |}.
Proof.
  destruct (checkSQLSecurity_cases sql) as [E|E]; rewrite E; simpl;
    [discriminate|reflexivity].
Qed.


(** The wrapper runs the action once, keeps its outcome and appends one
    entry to the log. *)
Lemma withPerformanceMonitoring_run T (I : HasAffectedRows T)
  op sql params (action : M T) w :
  withPerformanceMonitoring op sql params action w
  = (fst (action w),
     add_log (monitored_entry op sql params (clock w) (fst (action w))
                (clock (snd (action w))))
       (snd (action w))).
Proof.
  unfold withPerformanceMonitoring, bind, try_catch, hrtime, newDate, logQuery,
    ret, throw, add_log, monitored_entry.
  destruct (action w) as [[a|e] w1]; reflexivity.
Qed.

(** Case analysis on the next answer of the driver that the goal waits
    for. *)
Ltac oracle :=
  match goal with
  | |- context [match beginTransaction_error ?d ?h with _ => _ end] =>
      destruct (beginTransaction_error d h) eqn:?
  | |- context [match query_result ?d ?h ?q ?p with _ => _ end] =>
      destruct (query_result d h q p) eqn:?
  end.

(** [executeQuery], case by case. *)
Lemma executeQuery_run drv sql params w :
  let w1 := emit drv (EvGetConnection true) w in
  executeQuery drv sql params w =
  match getConnection_error drv (events w) with
  | Some error => (Throw error, emit drv (EvGetConnection false) w)
  | None =>
      if negb (safe (checkSQLSecurity sql))
      then (Throw (new_Error (reason (checkSQLSecurity sql))), w1)
      else if negb (safe (checkQueryLimits sql))
      then (Throw (new_Error (reason (checkQueryLimits sql))), w1)
      else
        match query_result drv (events w1) sql params with
        | inl results =>
            (Return results,
             emit drv EvRelease
               (add_log (monitored_entry SELECT sql params (clock w1)
                           (Return results)
                           (clock (emit drv (EvQuery sql params true) w1)))
                  (emit drv (EvQuery sql params true) w1)))
        | inr error =>
            (Throw error,
             emit drv EvRelease
               (add_log (monitored_entry (T := QueryResult) SELECT sql params
                           (clock w1) (Throw error)
                           (clock (emit drv (EvQuery sql params false) w1)))
                  (emit drv (EvQuery sql params false) w1)))
        end
  end.
Proof.
  intros w1. unfold executeQuery, bind at 1, getConnectionFromPool.
  destruct (getConnection_error drv (events w)); [reflexivity|].
  fold w1. destruct (negb (safe (checkSQLSecurity sql))); [reflexivity|].
  destruct (negb (safe (checkQueryLimits sql))); [reflexivity|].
  unfold try_finally. rewrite withPerformanceMonitoring_run.
  unfold executeQueryWithConnection, release.
  destruct (query_result drv (events w1) sql params); reflexivity.
Qed.

(** [executeReadOnlyQuery], case by case: the steps run until the first one
    the driver fails. *)
Lemma executeReadOnlyQuery_run drv sql w :
  let w1 := emit drv (EvGetConnection true) w in
  let fail := fun (error : Thrown) (steps : list Event) =>
    (Throw (A := ToolResponse) error,
     emits drv [EvRollback; EvRelease]
       (add_log (monitored_entry (T := ToolResponse) SELECT sql [] (clock w1)
                   (Throw error) (clock (emits drv steps w1)))
          (emits drv steps w1))) in
  executeReadOnlyQuery drv sql w =
  match getConnection_error drv (events w) with
  | Some error => (Throw error, emit drv (EvGetConnection false) w)
  | None =>
      if negb (safe (checkSQLSecurity sql))
      then (Throw (new_Error (reason (checkSQLSecurity sql))), w1)
      else
        match query_result drv (events w1) SET_READ_ONLY [] with
        | inr error => fail error [EvQuery SET_READ_ONLY [] false]
        | inl _ =>
        match beginTransaction_error drv
                (events w1 ++ [EvQuery SET_READ_ONLY [] true]) with
        | Some error =>
            fail error [EvQuery SET_READ_ONLY [] true; EvBeginTransaction false]
        | None =>
        match query_result drv
                (events w1 ++ [EvQuery SET_READ_ONLY [] true;
                               EvBeginTransaction true]) sql [] with
        | inr error =>
            fail error [EvQuery SET_READ_ONLY [] true; EvBeginTransaction true;
                        EvQuery sql [] false]
        | inl results =>
        match query_result drv
                (events w1 ++ [EvQuery SET_READ_ONLY [] true;
                               EvBeginTransaction true; EvQuery sql [] true;
                               EvRollback]) SET_READ_WRITE [] with
        | inr error =>
            fail error [EvQuery SET_READ_ONLY [] true; EvBeginTransaction true;
                        EvQuery sql [] true; EvRollback;
                        EvQuery SET_READ_WRITE [] false]
        | inl _ =>
            let steps := [EvQuery SET_READ_ONLY [] true; EvBeginTransaction true;
                          EvQuery sql [] true; EvRollback;
                          EvQuery SET_READ_WRITE [] true] in
            let response := {| content_text := JsonQueryResult results;
                               isError := false |} in
            (Return response,
             emit drv EvRelease
               (add_log (monitored_entry SELECT sql [] (clock w1)
                           (Return response) (clock (emits drv steps w1)))
                  (emits drv steps w1)))
        end end end end
  end.
Proof.
  intros w1 fail. subst w1 fail.
  unfold executeReadOnlyQuery, bind at 1, getConnectionFromPool.
  destruct (getConnection_error drv (events w)); [reflexivity|].
  destruct (negb (safe (checkSQLSecurity sql))); [reflexivity|].
  unfold try_finally, try_catch. rewrite withPerformanceMonitoring_run.
  unfold executeQueryWithConnection, startTransaction, rollbackTransaction,
    release, bind, ret, throw, emits. simpl.
  destruct (query_result drv _ SET_READ_ONLY []); simpl;
    rewrite <- ?app_assoc; simpl; [|reflexivity].
  destruct (beginTransaction_error drv _); simpl;
    rewrite <- ?app_assoc; simpl; [reflexivity|].
  destruct (query_result drv _ sql []); simpl;
    rewrite <- ?app_assoc; simpl; [|reflexivity].
  destruct (query_result drv _ SET_READ_WRITE []); simpl;
    rewrite <- ?app_assoc; reflexivity.
Qed.

(** [executeModifyQuery], case by case. *)
Lemma executeModifyQuery_run drv sql params w :
  let w1 := emit drv (EvGetConnection true) w in
  let fail := fun (error : Thrown) (steps : list Event) =>
    (Return {| success := false; affectedRows := None; insertId := None;
               message := Some (error_message error) |},
     emits drv [EvRollback; EvRelease]
       (add_log (monitored_entry (T := SQLExecuteResult) (sqlTypeOf sql) sql
                   params (clock w1) (Throw error)
                   (clock (emits drv steps w1)))
          (emits drv steps w1))) in
  executeModifyQuery drv sql params w =
  match getConnection_error drv (events w) with
  | Some error => (Throw error, emit drv (EvGetConnection false) w)
  | None =>
      if negb (safe (checkSQLSecurity sql))
      then (Return {| success := false; affectedRows := None; insertId := None;
                      message := reason (checkSQLSecurity sql) |}, w1)
      else
        match beginTransaction_error drv (events w1) with
        | Some error => fail error [EvBeginTransaction false]
        | None =>
        match query_result drv (events w1 ++ [EvBeginTransaction true])
                sql params with
        | inr error =>
            fail error [EvBeginTransaction true; EvQuery sql params false]
        | inl result =>
            let steps :=
              [EvBeginTransaction true; EvQuery sql params true;
               EvCommit
                 (accepted
                    (commit_error drv
                       (events w1 ++ [EvBeginTransaction true;
                                      EvQuery sql params true])))] in
            let answer := {| success := true;
                             affectedRows := affectedRowsOf result;
                             insertId := insertIdOf result;
                             message := messageOf result |} in
            (Return answer,
             emit drv EvRelease
               (add_log (monitored_entry (sqlTypeOf sql) sql params (clock w1)
                           (Return answer) (clock (emits drv steps w1)))
                  (emits drv steps w1)))
        end end
  end.
Proof.
  intros w1 fail. subst w1 fail.
  unfold executeModifyQuery, bind at 1, getConnectionFromPool.
  destruct (getConnection_error drv (events w)); [reflexivity|].
  destruct (negb (safe (checkSQLSecurity sql))); [reflexivity|].
  unfold try_finally, try_catch. rewrite withPerformanceMonitoring_run.
  unfold executeQueryWithConnection, startTransaction, rollbackTransaction,
    commit, release, bind, ret, throw, emits. simpl.
  destruct (beginTransaction_error drv _); simpl;
    rewrite <- ?app_assoc; simpl; [reflexivity|].
  destruct (query_result drv _ sql params); simpl;
    rewrite <- ?app_assoc; reflexivity.
Qed.

(** A run of driver calls leaves the log as it was. *)
Lemma logs_emits drv es w : logs (emits drv es w) = logs w.
Proof.
  revert w. induction es as [|e es IH]; intros w; simpl; [reflexivity|].
  unfold emits in *. simpl. now rewrite IH.
Qed.



Lemma events_emit drv e w : events (emit drv e w) = events w ++ [e].
Proof. reflexivity. Qed.

(** ** Release of the borrowed connection *)

(** Past the guards every executor releases the connection it borrowed
    exactly once, whatever the driver answers; when a guard rejects the
    statement the connection is not released at all. *)
Lemma release_count_after_acquisition drv sql params w :
  getConnection_error drv (events w) = None ->
  (exists new,
      events (snd (executeQuery drv sql params w))
      = events w ++ EvGetConnection true :: new
      /\ count is_release new
         = if safe (checkSQLSecurity sql) && safe (checkQueryLimits sql)
           then 1 else 0)
  /\ (exists new,
         events (snd (executeReadOnlyQuery drv sql w))
         = events w ++ EvGetConnection true :: new
         /\ count is_release new
            = if safe (checkSQLSecurity sql) then 1 else 0)
  /\ (exists new,
         events (snd (executeModifyQuery drv sql params w))
         = events w ++ EvGetConnection true :: new
         /\ count is_release new
            = if safe (checkSQLSecurity sql) then 1 else 0).
Proof.
  intros Acq. split; [|split].
  - rewrite executeQuery_run, Acq.
    destruct (safe (checkSQLSecurity sql)); simpl;
      [|exists []; now rewrite ?events_emit].
    destruct (safe (checkQueryLimits sql)); simpl;
      [|exists []; now rewrite ?events_emit].
    destruct (query_result drv _ sql params); simpl;
      rewrite <- !app_assoc; simpl; eexists; split; reflexivity.
  - rewrite executeReadOnlyQuery_run, Acq.
    destruct (safe (checkSQLSecurity sql)); simpl;
      [|exists []; now rewrite ?events_emit].
    repeat (oracle; simpl; rewrite <- ?app_assoc; simpl);
      eexists; split; reflexivity.
  - rewrite executeModifyQuery_run, Acq.
    destruct (safe (checkSQLSecurity sql)); simpl;
      [|exists []; now rewrite ?events_emit].
    repeat (oracle; simpl; rewrite <- ?app_assoc; simpl);
      eexists; split; reflexivity.
Qed.

(** C1. The claim asks for exactly one release on every exit path after a
    connection was acquired.  On the rejection paths the code returns or
    throws before it enters the [try ... finally]: with a pool that grants
    the connection, a stacked statement sent to [mysql_query] or to
    [mysql_execute], and a stacked or over-long statement given to the
    generic executor, end with one acquisition and no release. *)
Theorem rejection_after_acquisition_skips_release :
  (fst (callTool ok_driver (mysql_query stacked_statement) initial_world)
   = Throw (ErrorObject reason_injection)
   /\ events (snd (callTool ok_driver (mysql_query stacked_statement)
                     initial_world))
      = [EvGetConnection true])
  /\ (fst (callTool ok_driver (mysql_execute stacked_delete None)
             initial_world)
      = Return {| content_text :=
                    JsonExecuteResult
                      {| success := false; affectedRows := None;
                         insertId := None;
                         message := Some reason_injection |};
                  isError := true |}
      /\ events (snd (callTool ok_driver (mysql_execute stacked_delete None)
                        initial_world))
         = [EvGetConnection true])
  /\ (fst (executeQuery ok_driver stacked_statement [] initial_world)
      = Throw (ErrorObject reason_injection)
      /\ events (snd (executeQuery ok_driver stacked_statement []
                        initial_world))
         = [EvGetConnection true])
  /\ (fst (executeQuery ok_driver long_statement [] initial_world)
      = Throw (ErrorObject reason_too_long)
      /\ count is_acquire
           (events (snd (executeQuery ok_driver long_statement []
                           initial_world))) = 1
      /\ count is_release
           (events (snd (executeQuery ok_driver long_statement []
                           initial_world))) = 0).
Proof.
  repeat split; vm_compute; reflexivity.
Qed.

(** ** The length rule *)

Lemma checkQueryLimits_long sql :
  (maxQueryLength < N.of_nat (List.length sql))%N ->
  checkQueryLimits sql = {| safe := false; reason := Some reason_too_long |}.
Proof.
  intros L. unfold checkQueryLimits.
  apply N.ltb_lt in L. now rewrite L.
Qed.

(** C9, as stated, fails: the generic executor asks the pool for a
    connection before it looks at the statement, so the over-long statement
    is rejected with a connection already acquired. *)
Lemma long_statement_rejected_after_acquisition :
  (maxQueryLength < N.of_nat (List.length long_statement))%N
  /\ fst (executeQuery ok_driver long_statement [] initial_world)
     = Throw (ErrorObject reason_too_long)
  /\ events (snd (executeQuery ok_driver long_statement [] initial_world))
     = [EvGetConnection true]
  /\ count is_acquire
       (events (snd (executeQuery ok_driver long_statement [] initial_world)))
     <> 0.
Proof.
  repeat split; try (vm_compute; reflexivity).
  vm_compute. discriminate.
Qed.

(** C9, amended. For every statement longer than [maxQueryLength] the
    generic executor first asks the pool for a connection.  If the pool
    refuses, the call fails with the pool's error.  If the pool grants one,
    the guard then rejects the statement, with the denylist reason when it
    matches a pattern and the length reason otherwise.  Either way nothing
    is sent to the database and nothing is logged. *)
Theorem long_statement_never_reaches_database drv sql params w :
  (maxQueryLength < N.of_nat (List.length sql))%N ->
  exists ok rest,
    events (snd (executeQuery drv sql params w))
    = events w ++ EvGetConnection ok :: rest
    /\ count touches_database rest = 0
    /\ logs (snd (executeQuery drv sql params w)) = logs w
    /\ (ok = true ->
        getConnection_error drv (events w) = None
        /\ (fst (executeQuery drv sql params w)
            = Throw (ErrorObject reason_injection)
            /\ safe (checkSQLSecurity sql) = false
            \/ fst (executeQuery drv sql params w)
               = Throw (ErrorObject reason_too_long)
               /\ safe (checkSQLSecurity sql) = true))
    /\ (ok = false ->
        exists error,
          getConnection_error drv (events w) = Some error
          /\ fst (executeQuery drv sql params w) = Throw error).
Proof.
  intros L. rewrite executeQuery_run.
  destruct (getConnection_error drv (events w)) as [error|].
  - exists false, []. simpl. repeat split; try discriminate.
    intros _. exists error. auto.
  - exists true, []. rewrite (checkQueryLimits_long sql L).
    destruct (checkSQLSecurity_cases sql) as [E|E]; rewrite E; simpl;
      repeat split; auto; discriminate.
Qed.

Lemma long_statement_never_reaches_database_witness :
  exists ok rest,
    events (snd (executeQuery ok_driver long_statement [] initial_world))
    = events initial_world ++ EvGetConnection ok :: rest
    /\ count touches_database rest = 0
    /\ logs (snd (executeQuery ok_driver long_statement [] initial_world)) = logs initial_world
    /\ (ok = true ->
        getConnection_error ok_driver (events initial_world) = None
        /\ (fst (executeQuery ok_driver long_statement [] initial_world)
            = Throw (ErrorObject reason_injection)
            /\ safe (checkSQLSecurity long_statement) = false
            \/ fst (executeQuery ok_driver long_statement [] initial_world)
               = Throw (ErrorObject reason_too_long)
               /\ safe (checkSQLSecurity long_statement) = true))
    /\ (ok = false ->
        exists error,
          getConnection_error ok_driver (events initial_world) = Some error
          /\ fst (executeQuery ok_driver long_statement [] initial_world) = Throw error).
Proof.
  apply (long_statement_never_reaches_database ok_driver long_statement []
           initial_world).
  vm_compute. reflexivity.
Defined.

(** C7. The claim has [mysql_query] fail on a statement longer than 4096
    characters.  [executeReadOnlyQuery] never calls [checkQueryLimits]: the
    4097-unit statement, which the length rule refuses, is run on the
    connection and answered. *)
Theorem mysql_query_runs_overlong_statement :
  (maxQueryLength < N.of_nat (List.length long_statement))%N
  /\ safe (checkQueryLimits long_statement) = false
  /\ fst (callTool ok_driver (mysql_query long_statement) initial_world)
     = Return {| content_text := JsonQueryResult (OkPacket 1 0 []);
                 isError := false |}
  /\ events (snd (callTool ok_driver (mysql_query long_statement)
                    initial_world))
     = [EvGetConnection true; EvQuery SET_READ_ONLY [] true;
        EvBeginTransaction true; EvQuery long_statement [] true; EvRollback;
        EvQuery SET_READ_WRITE [] true; EvRelease].
Proof.
  repeat split; vm_compute; reflexivity.
Qed.

(** ** The session behind the executors *)

Lemma session_after_app st l1 l2 :
  session_after st (l1 ++ l2) = session_after (session_after st l1) l2.
Proof. apply fold_left_app. Qed.

Lemma js_eqb_refl a : js_eqb a a = true.
Proof. induction a as [|x a IH]; simpl; [reflexivity|]. now rewrite N.eqb_refl. Qed.

Lemma js_eqb_eq a b : js_eqb a b = true <-> a = b.
Proof.
  split; [|intros ->; apply js_eqb_refl].
  revert b. induction a as [|x a IH]; intros [|y b]; simpl; try discriminate;
    [reflexivity|].
  destruct (N.eqb_spec x y); [|discriminate].
  intros H. subst. f_equal. now apply IH.
Qed.

(** A rollback followed by a successful SET ... READ WRITE and the release
    leaves the session read-write with no transaction open. *)
Lemma session_restored st :
  let st' := session_after st
               [EvRollback; EvQuery SET_READ_WRITE [] true; EvRelease] in
  in_transaction st' = false /\ read_only st' = false.
Proof.
  unfold session_after. cbn [fold_left].
  unfold session_step at 2. cbn [session_step in_transaction].
  split; reflexivity.
Qed.

(** ** C4: the read-only executor *)

(** C4. Whatever the driver answers, [executeReadOnlyQuery] issues no
    commit, and what it does is decided by the answers as follows.  A
    refused acquisition and a guard rejection are thrown before anything is
    sent to the database.  Past them the steps are, in order: SET SESSION
    TRANSACTION READ ONLY, begin, the statement, rollback, SET SESSION
    TRANSACTION READ WRITE.  When the driver fails one of them, the steps
    before it were made in that order, a rollback and the release follow the
    failed step, and the executor throws the error the driver gave to it.
    When the driver accepts them all, the release follows, the executor
    returns the rows of the statement in the response envelope, and whatever
    state the session was in before, it is read-write with no transaction
    open afterwards. *)
Theorem executeReadOnlyQuery_snapshot_read drv sql w :
  exists new,
    events (snd (executeReadOnlyQuery drv sql w)) = events w ++ new
    /\ count is_commit new = 0
    /\ match getConnection_error drv (events w) with
       | Some error =>
           fst (executeReadOnlyQuery drv sql w) = Throw error
           /\ new = [EvGetConnection false]
       | None =>
       if negb (safe (checkSQLSecurity sql))
       then fst (executeReadOnlyQuery drv sql w)
            = Throw (new_Error (reason (checkSQLSecurity sql)))
            /\ count touches_database new = 0
       else
       match query_result drv (events w ++ [EvGetConnection true])
               SET_READ_ONLY [] with
       | inr error =>
           fst (executeReadOnlyQuery drv sql w) = Throw error
           /\ new = [EvGetConnection true; EvQuery SET_READ_ONLY [] false;
                     EvRollback; EvRelease]
       | inl _ =>
       match beginTransaction_error drv
               (events w ++ [EvGetConnection true;
                             EvQuery SET_READ_ONLY [] true]) with
       | Some error =>
           fst (executeReadOnlyQuery drv sql w) = Throw error
           /\ new = [EvGetConnection true; EvQuery SET_READ_ONLY [] true;
                     EvBeginTransaction false; EvRollback; EvRelease]
       | None =>
       match query_result drv
               (events w ++ [EvGetConnection true;
                             EvQuery SET_READ_ONLY [] true;
                             EvBeginTransaction true]) sql [] with
       | inr error =>
           fst (executeReadOnlyQuery drv sql w) = Throw error
           /\ new = [EvGetConnection true; EvQuery SET_READ_ONLY [] true;
                     EvBeginTransaction true; EvQuery sql [] false;
                     EvRollback; EvRelease]
       | inl results =>
       match query_result drv
               (events w ++ [EvGetConnection true;
                             EvQuery SET_READ_ONLY [] true;
                             EvBeginTransaction true; EvQuery sql [] true;
                             EvRollback]) SET_READ_WRITE [] with
       | inr error =>
           fst (executeReadOnlyQuery drv sql w) = Throw error
           /\ new = [EvGetConnection true; EvQuery SET_READ_ONLY [] true;
                     EvBeginTransaction true; EvQuery sql [] true; EvRollback;
                     EvQuery SET_READ_WRITE [] false; EvRollback; EvRelease]
       | inl _ =>
           fst (executeReadOnlyQuery drv sql w)
           = Return {| content_text := JsonQueryResult results;
                       isError := false |}
           /\ new = [EvGetConnection true; EvQuery SET_READ_ONLY [] true;
                     EvBeginTransaction true; EvQuery sql [] true; EvRollback;
                     EvQuery SET_READ_WRITE [] true; EvRelease]
           /\ forall st,
                in_transaction (session_after st new) = false
                /\ read_only (session_after st new) = false
       end end end end
       end.
Proof.
  rewrite executeReadOnlyQuery_run.
  destruct (getConnection_error drv (events w)) as [e0|] eqn:Acq.
  { exists [EvGetConnection false]. simpl. auto. }
  destruct (negb (safe (checkSQLSecurity sql))); simpl.
  { exists [EvGetConnection true]. simpl. auto. }
  destruct (query_result drv _ SET_READ_ONLY []) as [r1|e1] eqn:Q1;
    simpl; rewrite <- ?app_assoc; simpl.
  2:{ eexists. split; [reflexivity|]. split; [reflexivity|]. auto. }
  destruct (beginTransaction_error drv _) as [e2|] eqn:B;
    simpl; rewrite <- ?app_assoc; simpl.
  { eexists. split; [reflexivity|]. split; [reflexivity|]. auto. }
  destruct (query_result drv _ sql []) as [r3|e3] eqn:Q3;
    simpl; rewrite <- ?app_assoc; simpl.
  2:{ eexists. split; [reflexivity|]. split; [reflexivity|]. auto. }
  destruct (query_result drv _ SET_READ_WRITE []) as [r4|e4] eqn:Q4;
    simpl; rewrite <- ?app_assoc; simpl.
  2:{ eexists. split; [reflexivity|]. split; [reflexivity|]. auto. }
  eexists. split; [reflexivity|]. split; [reflexivity|].
  split; [reflexivity|]. split; [reflexivity|]. intros st.
  change [EvGetConnection true; EvQuery SET_READ_ONLY [] true;
          EvBeginTransaction true; EvQuery sql [] true; EvRollback;
          EvQuery SET_READ_WRITE [] true; EvRelease]
    with ([EvGetConnection true; EvQuery SET_READ_ONLY [] true;
           EvBeginTransaction true; EvQuery sql [] true]
          ++ [EvRollback; EvQuery SET_READ_WRITE [] true; EvRelease]).
  rewrite session_after_app. apply session_restored.
Qed.

(** The read-only executor against a server that refuses the statement:
    the driver's error comes back after a rollback and the release. *)
Example read_only_run_refused :
  fst (callTool refusing_driver (mysql_query (u16 "SELECT * FROM missing"))
         initial_world)
  = Throw duplicate_entry
  /\ events (snd (callTool refusing_driver
                    (mysql_query (u16 "SELECT * FROM missing"))
                    initial_world))
     = [EvGetConnection true; EvQuery SET_READ_ONLY [] true;
        EvBeginTransaction true;
        EvQuery (u16 "SELECT * FROM missing") [] false;
        EvRollback; EvRelease].
Proof. split; vm_compute; reflexivity. Qed.

(** ** C5: the modify executor *)

(** C5. For every statement the guard accepts, on a connection the pool
    granted, [executeModifyQuery] never throws, and what it does is decided
    by the driver's answers to begin and to the statement.  A failed begin
    or statement is followed by a rollback and the release and answered with
    [{success: false, message}], with no new durable effect and no open
    transaction on a session that was idle.  When both are accepted, the
    COMMIT is sent, the release follows, and the answer is [{success: true,
    affectedRows, insertId, message}] read off the statement's result,
    logged as a success: the refusal of the COMMIT is never seen.  So when
    the server refuses the COMMIT, the claim fails: no rollback is sent, no
    commit has gone through, the statement is not among the durable effects
    of the session, and the caller is told it succeeded. *)
Theorem executeModifyQuery_ignores_refused_commit drv sql params w :
  safe (checkSQLSecurity sql) = true ->
  getConnection_error drv (events w) = None ->
  exists new,
    events (snd (executeModifyQuery drv sql params w)) = events w ++ new
    /\ match beginTransaction_error drv
               (events w ++ [EvGetConnection true]) with
       | Some error =>
           fst (executeModifyQuery drv sql params w)
           = Return {| success := false; affectedRows := None;
                       insertId := None;
                       message := Some (error_message error) |}
           /\ new = [EvGetConnection true; EvBeginTransaction false;
                     EvRollback; EvRelease]
       | None =>
       match query_result drv
               (events w ++ [EvGetConnection true; EvBeginTransaction true])
               sql params with
       | inr error =>
           fst (executeModifyQuery drv sql params w)
           = Return {| success := false; affectedRows := None;
                       insertId := None;
                       message := Some (error_message error) |}
           /\ new = [EvGetConnection true; EvBeginTransaction true;
                     EvQuery sql params false; EvRollback; EvRelease]
           /\ forall st,
                in_transaction st = false -> pending st = [] ->
                committed (session_after st new) = committed st
                /\ in_transaction (session_after st new) = false
       | inl result =>
           fst (executeModifyQuery drv sql params w)
           = Return {| success := true;
                       affectedRows := affectedRowsOf result;
                       insertId := insertIdOf result;
                       message := messageOf result |}
           /\ (exists entry,
                 logs (snd (executeModifyQuery drv sql params w))
                 = logs w ++ [entry]
                 /\ log_success entry = true)
           /\ match commit_error drv
                      (events w ++ [EvGetConnection true;
                                    EvBeginTransaction true;
                                    EvQuery sql params true]) with
              | None =>
                  new = [EvGetConnection true; EvBeginTransaction true;
                         EvQuery sql params true; EvCommit true; EvRelease]
                  /\ forall st,
                       in_transaction st = false -> pending st = [] ->
                       committed (session_after st new)
                       = committed st ++ [(sql, params)]
                       /\ in_transaction (session_after st new) = false
              | Some _ =>
                  new = [EvGetConnection true; EvBeginTransaction true;
                         EvQuery sql params true; EvCommit false; EvRelease]
                  /\ count is_rollback new = 0
                  /\ count is_committed new = 0
                  /\ forall st,
                       in_transaction st = false -> pending st = [] ->
                       committed (session_after st new) = committed st
              end
       end
       end.
Proof.
  intros G Acq. rewrite executeModifyQuery_run, Acq.
  rewrite G. simpl.
  destruct (beginTransaction_error drv _) as [e1|] eqn:B;
    simpl; rewrite <- ?app_assoc; simpl.
  { eexists. split; [reflexivity|]. auto. }
  destruct (query_result drv _ sql params) as [result|e2] eqn:Q;
    simpl; rewrite <- ?app_assoc; simpl.
  2:{ eexists. split; [reflexivity|]. split; [reflexivity|].
      split; [reflexivity|].
      intros st T P. unfold session_after. simpl. rewrite P.
      rewrite !app_nil_r. auto. }
  destruct (commit_error drv _) as [e3|] eqn:C; simpl.
  - eexists. split; [reflexivity|]. split; [reflexivity|].
    split; [eexists; split; reflexivity|].
    split; [reflexivity|]. split; [reflexivity|]. split; [reflexivity|].
    intros st T P. unfold session_after. simpl. rewrite P.
    rewrite !app_nil_r. reflexivity.
  - eexists. split; [reflexivity|]. split; [reflexivity|].
    split; [eexists; split; reflexivity|].
    split; [reflexivity|].
    intros st T P. unfold session_after. simpl. rewrite P.
    rewrite !app_nil_r. auto.
Qed.

Lemma executeModifyQuery_ignores_refused_commit_witness :
  fst (executeModifyQuery commit_refusing_driver insert_statement
         [JsString (u16 "1")] initial_world)
  = Return {| success := true; affectedRows := Some 1%N;
              insertId := Some 0%N; message := Some [] |}
  /\ events (snd (executeModifyQuery commit_refusing_driver insert_statement
                    [JsString (u16 "1")] initial_world))
     = [EvGetConnection true; EvBeginTransaction true;
        EvQuery insert_statement [JsString (u16 "1")] true; EvCommit false;
        EvRelease].
Proof.
  destruct (@executeModifyQuery_ignores_refused_commit commit_refusing_driver
              insert_statement [JsString (u16 "1")] initial_world)
    as (new & E & A & _ & N & _).
  - vm_compute. reflexivity.
  - reflexivity.
  - split; [exact A|]. rewrite E, N. reflexivity.
Defined.

(** ** The first token of a statement *)

Lemma hd_split sep s :
  hd [] (split sep s) = takeWhile (fun c => negb (c =? sep)%N) s.
Proof.
  induction s as [|c s IH]; simpl; [reflexivity|].
  destruct (c =? sep)%N; simpl; [reflexivity|].
  destruct (split sep s) as [|tok toks]; simpl in *; now rewrite <- IH.
Qed.

Lemma takeWhile_dropWhile {A} (f : A -> bool) l :
  l = takeWhile f l ++ dropWhile f l.
Proof.
  induction l as [|x l IH]; simpl; [reflexivity|].
  destruct (f x); simpl; [now rewrite <- IH|reflexivity].
Qed.

Lemma takeWhile_all {A} (f : A -> bool) l x :
  In x (takeWhile f l) -> f x = true.
Proof.
  induction l as [|y l IH]; simpl; [intros []|].
  destruct (f y) eqn:F; [|intros []].
  intros [<-|H]; auto.
Qed.

Lemma dropWhile_head {A} (f : A -> bool) l x r :
  dropWhile f l = x :: r -> f x = false.
Proof.
  induction l as [|y l IH]; simpl; [discriminate|].
  destruct (f y) eqn:F; [exact IH|].
  now intros [= <- _].
Qed.

Lemma takeWhile_app_all {A} (f : A -> bool) l1 l2 :
  forallb f l1 = true -> takeWhile f (l1 ++ l2) = l1 ++ takeWhile f l2.
Proof.
  induction l1 as [|x l1 IH]; simpl; [reflexivity|].
  intros H. apply andb_true_iff in H as [-> H]. now rewrite IH.
Qed.

(** The piece [split] returns first is the first space-delimited token. *)
Lemma first_token_of_split s :
  first_space_delimited_token s (hd [] (split SPACE s)).
Proof.
  rewrite hd_split. split.
  - intros I. apply takeWhile_all in I. now rewrite N.eqb_refl in I.
  - pose proof (takeWhile_dropWhile (fun c => negb (c =? SPACE)%N) s) as E.
    destruct (dropWhile (fun c => negb (c =? SPACE)%N) s) as [|x r] eqn:D.
    + left. now rewrite app_nil_r in E.
    + right. exists r. apply dropWhile_head in D.
      apply negb_false_iff, N.eqb_eq in D. now subst x.
Qed.

Lemma upper_unit_not_nil c : upper_unit c <> [].
Proof.
  unfold upper_unit.
  repeat match goal with
         | |- context [if ?b then _ else _] => destruct b
         end; discriminate.
Qed.

Lemma toUpperCase_app a b : toUpperCase (a ++ b) = toUpperCase a ++ toUpperCase b.
Proof. apply flat_map_app. Qed.

Lemma toUpperCase_keeps_space s : In SPACE s -> In SPACE (toUpperCase s).
Proof.
  intros I. unfold toUpperCase. apply in_flat_map. exists SPACE.
  split; [exact I|]. left. reflexivity.
Qed.

(** A keyword that reads SELECT in upper case, followed by one more unit
    that is not a space, starts a first token that is not SELECT. *)
Lemma select_then_unit_is_not_select kw c rest :
  toUpperCase kw = SELECT -> c <> SPACE ->
  toUpperCase (hd [] (split SPACE (kw ++ c :: rest))) <> SELECT.
Proof.
  intros K C. rewrite hd_split, takeWhile_app_all.
  - cbn [takeWhile]. destruct (N.eqb_spec c SPACE) as [E|_]; [contradiction|].
    cbn [negb]. rewrite toUpperCase_app, K.
    change (toUpperCase (c :: ?t)) with (upper_unit c ++ toUpperCase t).
    intros E.
    assert (E' : SELECT ++ upper_unit c
                   ++ toUpperCase
                        (takeWhile (fun c => negb (c =? SPACE)%N) rest)
                 = SELECT ++ []) by (now rewrite app_nil_r).
    apply app_inv_head in E'. apply app_eq_nil in E' as [E' _].
    exact (upper_unit_not_nil c E').
  - apply forallb_forall. intros x I.
    destruct (N.eqb_spec x SPACE) as [->|_]; [|reflexivity].
    apply toUpperCase_keeps_space in I. rewrite K in I.
    vm_compute in I. intuition discriminate.
Qed.

(** The dispatcher's rejection, shared by the two statements below. *)
Lemma mysql_execute_rejects_select_token_aux drv sql params w :
  toUpperCase (hd [] (split SPACE (trim sql))) = SELECT ->
  callTool drv (mysql_execute sql params) w
  = (Throw (ErrorObject use_mysql_query), w).
Proof.
  intros H. unfold callTool, sqlTypeOf. rewrite H, js_eqb_refl. reflexivity.
Qed.

(** ** C6: SELECT sent to [mysql_execute] *)

(** C6, as stated, fails: the leading keyword of "SELECT<TAB>1" is SELECT,
    yet [mysql_execute] hands it to the modify executor, which runs and
    commits it. *)
Lemma select_followed_by_tab_is_executed :
  leading_keyword select_tab_statement = SELECT
  /\ fst (callTool ok_driver (mysql_execute select_tab_statement None)
            initial_world)
     = Return {| content_text :=
                   JsonExecuteResult
                     {| success := true; affectedRows := Some 1%N;
                        insertId := Some 0%N; message := Some [] |};
                 isError := false |}
  /\ events (snd (callTool ok_driver (mysql_execute select_tab_statement None)
                    initial_world))
     = [EvGetConnection true; EvBeginTransaction true;
        EvQuery select_tab_statement [] true; EvCommit true; EvRelease].
Proof.
  repeat split; vm_compute; reflexivity.
Qed.

(** C6, amended. For every [mysql_execute] call whose trimmed statement has
    SELECT, after upper-casing, as its first space-delimited token, the
    dispatcher throws the usage-guidance error and leaves the world as it
    was: no connection is asked for, nothing reaches the modify executor or
    the database, nothing is logged. *)
Theorem mysql_execute_rejects_select_token drv sql params w :
  toUpperCase (hd [] (split SPACE (trim sql))) = SELECT ->
  fst (callTool drv (mysql_execute sql params) w)
  = Throw (ErrorObject use_mysql_query)
  /\ snd (callTool drv (mysql_execute sql params) w) = w
  /\ events (snd (callTool drv (mysql_execute sql params) w)) = events w
  /\ logs (snd (callTool drv (mysql_execute sql params) w)) = logs w.
Proof.
  intros H.
  rewrite (mysql_execute_rejects_select_token_aux drv sql params w H).
  repeat split.
Qed.

Lemma mysql_execute_rejects_select_token_witness :
  fst (callTool ok_driver (mysql_execute (u16 "SELECT * FROM t") None)
         initial_world)
  = Throw (ErrorObject use_mysql_query)
  /\ snd (callTool ok_driver (mysql_execute (u16 "SELECT * FROM t") None)
            initial_world) = initial_world
  /\ events (snd (callTool ok_driver (mysql_execute (u16 "SELECT * FROM t") None)
                    initial_world)) = events initial_world
  /\ logs (snd (callTool ok_driver (mysql_execute (u16 "SELECT * FROM t") None)
                  initial_world)) = logs initial_world.
Proof.
  apply (mysql_execute_rejects_select_token ok_driver (u16 "SELECT * FROM t")
           None initial_world).
  vm_compute. reflexivity.
Defined.

(** ** C10: the first-token rule of [mysql_execute] *)

(** C10. Let [token] be the first space-delimited token of the trimmed
    statement.  [mysql_execute] throws the usage-guidance error, touching
    nothing, exactly when [token] in upper case is SELECT; otherwise the
    call is the modify executor's run with its answer wrapped.  So a trimmed
    statement that reads SELECT followed by a white-space unit other than a
    space has a token that is not SELECT and goes to the modify executor.
    The entry the modify executor logs carries the same upper-cased token as
    its operation kind. *)
Theorem mysql_execute_first_token_rule drv sql params w :
  exists token,
    first_space_delimited_token (trim sql) token
    /\ (toUpperCase token = SELECT <->
        callTool drv (mysql_execute sql params) w
        = (Throw (ErrorObject use_mysql_query), w))
    /\ (toUpperCase token <> SELECT ->
        callTool drv (mysql_execute sql params) w
        = bind (executeModifyQuery drv sql
                  (match params with Some ps => ps | None => [] end))
            (fun result =>
               ret {| content_text := JsonExecuteResult result;
                      isError := negb (success result) |}) w)
    /\ (forall kw c rest,
          trim sql = kw ++ c :: rest -> toUpperCase kw = SELECT ->
          isWhiteSpace c = true -> c <> SPACE ->
          toUpperCase token <> SELECT)
    /\ (forall ps,
          getConnection_error drv (events w) = None ->
          safe (checkSQLSecurity sql) = true ->
          exists entry,
            logs (snd (executeModifyQuery drv sql ps w)) = logs w ++ [entry]
            /\ operation entry = toUpperCase token).
Proof.
  exists (hd [] (split SPACE (trim sql))).
  split; [apply first_token_of_split|].
  assert (Other : toUpperCase (hd [] (split SPACE (trim sql))) <> SELECT ->
                  callTool drv (mysql_execute sql params) w
                  = bind (executeModifyQuery drv sql
                            (match params with Some ps => ps | None => [] end))
                      (fun result =>
                         ret {| content_text := JsonExecuteResult result;
                                isError := negb (success result) |}) w).
  { intros N. unfold callTool, sqlTypeOf.
    destruct (js_eqb _ SELECT) eqn:E; [|reflexivity].
    apply js_eqb_eq in E. contradiction. }
  split; [split|split; [exact Other|split]].
  - apply mysql_execute_rejects_select_token_aux.
  - intros Run.
    destruct (js_eqb (toUpperCase (hd [] (split SPACE (trim sql)))) SELECT)
      eqn:E; [now apply js_eqb_eq|].
    exfalso.
    assert (N : toUpperCase (hd [] (split SPACE (trim sql))) <> SELECT).
    { intros K. rewrite K in E. vm_compute in E. discriminate. }
    rewrite (Other N) in Run. unfold bind in Run.
    rewrite executeModifyQuery_run in Run.
    assert (L : forall ev, events w ++ [ev] <> events w).
    { intros ev Eq. apply (f_equal (@List.length Event)) in Eq.
      rewrite length_app in Eq. simpl in Eq. lia. }
    destruct (getConnection_error drv (events w)).
    { injection Run as _ Ew. apply (f_equal events) in Ew.
      exact (L _ Ew). }
    destruct (negb (safe (checkSQLSecurity sql))).
    { unfold ret in Run. discriminate. }
    destruct (beginTransaction_error drv _);
      [unfold ret in Run; simpl in Run; discriminate|].
    destruct (query_result drv _ sql _);
      [|unfold ret in Run; simpl in Run; discriminate].
    unfold ret in Run; simpl in Run; discriminate.
  - intros kw c rest T K _ C. rewrite T.
    now apply select_then_unit_is_not_select.
  - intros ps Acq G. rewrite executeModifyQuery_run, Acq.
    rewrite (checkSQLSecurity_safe sql G). simpl.
    repeat (oracle; simpl); rewrite ?logs_emits; simpl;
      eexists; split; reflexivity.
Qed.

(** An insertion that the server accepts: committed, answered and
    logged under the kind INSERT. *)
Example modify_run_accepted :
  fst (callTool ok_driver
         (mysql_execute insert_statement (Some [JsString (u16 "1")]))
         initial_world)
  = Return {| content_text :=
                JsonExecuteResult
                  {| success := true; affectedRows := Some 1%N;
                     insertId := Some 0%N; message := Some [] |};
              isError := false |}
  /\ events (snd (callTool ok_driver
                    (mysql_execute insert_statement
                       (Some [JsString (u16 "1")]))
                    initial_world))
     = [EvGetConnection true; EvBeginTransaction true;
        EvQuery insert_statement [JsString (u16 "1")] true; EvCommit true;
        EvRelease]
  /\ map operation
       (logs (snd (callTool ok_driver
                     (mysql_execute insert_statement
                        (Some [JsString (u16 "1")]))
                     initial_world)))
     = [u16 "INSERT"].
Proof. repeat split; vm_compute; reflexivity. Qed.

(** ** C8: what the instrumentation wrapper logs *)

(** C8, as stated, fails: a guard rejection is surfaced (as a failure answer
    by the modify executor, as a thrown error by [mysql_query]) with no entry
    written to the log. *)
Lemma guard_rejection_leaves_no_log_entry :
  fst (callTool ok_driver (mysql_execute stacked_delete None) initial_world)
  = Return {| content_text :=
                JsonExecuteResult
                  {| success := false; affectedRows := None; insertId := None;
                     message := Some reason_injection |};
              isError := true |}
  /\ logs (snd (callTool ok_driver (mysql_execute stacked_delete None)
                  initial_world)) = []
  /\ fst (callTool ok_driver (mysql_query stacked_statement) initial_world)
     = Throw (ErrorObject reason_injection)
  /\ logs (snd (callTool ok_driver (mysql_query stacked_statement)
                  initial_world)) = [].
Proof.
  repeat split; vm_compute; reflexivity.
Qed.

(** C8, amended. The wrapper runs its action once, hands back the action's
    outcome unchanged (a thrown error is re-thrown as it is), makes no driver
    call of its own and appends exactly one entry to the log, which records
    the elapsed time, the outcome and, on failure, the error's message.  Each
    executor enters the wrapper only after the connection is acquired and the
    guards have passed; a failed acquisition and a guard or limit rejection
    are surfaced with nothing logged.  Inside the wrapper, whenever the
    driver fails a statement or a begin, the entry logged is a failure entry
    carrying the message of the driver's error, and that error is what the
    executor surfaces (thrown by the generic and the read-only executor,
    in the [{success: false, message}] answer of the modify executor); when
    the driver fails none of them, one entry is logged as well, a success
    entry when the COMMIT of the modify executor is accepted too. *)
Theorem instrumentation_logs_what_runs_inside :
  (forall T (I : HasAffectedRows T) op sql params (action : M T) w,
      fst (withPerformanceMonitoring op sql params action w) = fst (action w)
      /\ events (snd (withPerformanceMonitoring op sql params action w))
         = events (snd (action w))
      /\ exists entry,
           logs (snd (withPerformanceMonitoring op sql params action w))
           = logs (snd (action w)) ++ [entry]
           /\ operation entry = op /\ log_sql entry = sql
           /\ log_params entry = params
           /\ duration entry = (clock (snd (action w)) - clock w)%N
           /\ (forall a, fst (action w) = Return a ->
                         log_success entry = true /\ log_error entry = None
                         /\ log_affectedRows entry = affectedRowsOf a)
           /\ (forall e, fst (action w) = Throw e ->
                         log_success entry = false
                         /\ log_error entry = Some (error_message e)))
  /\ (forall drv sql params w,
        match getConnection_error drv (events w) with
        | Some error =>
            fst (executeQuery drv sql params w) = Throw error
            /\ logs (snd (executeQuery drv sql params w)) = logs w
        | None =>
            if safe (checkSQLSecurity sql) && safe (checkQueryLimits sql)
            then
              match query_result drv (events w ++ [EvGetConnection true])
                      sql params with
              | inr error =>
                  fst (executeQuery drv sql params w) = Throw error
                  /\ exists entry,
                       logs (snd (executeQuery drv sql params w))
                       = logs w ++ [entry]
                       /\ log_success entry = false
                       /\ log_error entry = Some (error_message error)
              | inl results =>
                  fst (executeQuery drv sql params w) = Return results
                  /\ exists entry,
                       logs (snd (executeQuery drv sql params w))
                       = logs w ++ [entry]
                       /\ log_success entry = true
                       /\ log_error entry = None
              end
            else (exists error,
                     fst (executeQuery drv sql params w) = Throw error)
                 /\ logs (snd (executeQuery drv sql params w)) = logs w
        end)
  /\ (forall drv sql w,
        match getConnection_error drv (events w) with
        | Some error =>
            fst (executeReadOnlyQuery drv sql w) = Throw error
            /\ logs (snd (executeReadOnlyQuery drv sql w)) = logs w
        | None =>
            if safe (checkSQLSecurity sql)
            then
              match readOnly_failure drv (events w ++ [EvGetConnection true])
                      sql with
              | Some error =>
                  fst (executeReadOnlyQuery drv sql w) = Throw error
                  /\ exists entry,
                       logs (snd (executeReadOnlyQuery drv sql w))
                       = logs w ++ [entry]
                       /\ log_success entry = false
                       /\ log_error entry = Some (error_message error)
              | None =>
                  (exists response,
                      fst (executeReadOnlyQuery drv sql w) = Return response)
                  /\ exists entry,
                       logs (snd (executeReadOnlyQuery drv sql w))
                       = logs w ++ [entry]
                       /\ log_success entry = true
                       /\ log_error entry = None
              end
            else (exists error,
                     fst (executeReadOnlyQuery drv sql w) = Throw error)
                 /\ logs (snd (executeReadOnlyQuery drv sql w)) = logs w
        end)
  /\ (forall drv sql params w,
        match getConnection_error drv (events w) with
        | Some error =>
            fst (executeModifyQuery drv sql params w) = Throw error
            /\ logs (snd (executeModifyQuery drv sql params w)) = logs w
        | None =>
            if safe (checkSQLSecurity sql)
            then
              match modify_failure drv (events w ++ [EvGetConnection true])
                      sql params with
              | Some error =>
                  fst (executeModifyQuery drv sql params w)
                  = Return {| success := false; affectedRows := None;
                              insertId := None;
                              message := Some (error_message error) |}
                  /\ exists entry,
                       logs (snd (executeModifyQuery drv sql params w))
                       = logs w ++ [entry]
                       /\ log_success entry = false
                       /\ log_error entry = Some (error_message error)
              | None =>
                  exists entry,
                    logs (snd (executeModifyQuery drv sql params w))
                    = logs w ++ [entry]
                    /\ (commit_error drv
                          (events w ++ [EvGetConnection true;
                                        EvBeginTransaction true;
                                        EvQuery sql params true]) = None ->
                        log_success entry = true /\ log_error entry = None)
              end
            else (exists result,
                     fst (executeModifyQuery drv sql params w) = Return result
                     /\ success result = false)
                 /\ logs (snd (executeModifyQuery drv sql params w)) = logs w
        end).
Proof.
  split; [|split; [|split]].
  - intros T I op sql params action w.
    rewrite withPerformanceMonitoring_run. simpl.
    split; [reflexivity|]. split; [reflexivity|].
    eexists. split; [reflexivity|]. simpl.
    split; [reflexivity|]. split; [reflexivity|]. split; [reflexivity|].
    split; [reflexivity|].
    split; intros x E; rewrite E; repeat split; reflexivity.
  - intros drv sql params w. rewrite executeQuery_run.
    destruct (getConnection_error drv (events w)); [split; reflexivity|].
    destruct (safe (checkSQLSecurity sql)); simpl; [|eauto].
    destruct (safe (checkQueryLimits sql)); simpl; [|eauto].
    destruct (query_result drv _ sql params); simpl;
      (split; [reflexivity|]); eexists; (split; [reflexivity|]);
      split; reflexivity.
  - intros drv sql w. rewrite executeReadOnlyQuery_run.
    destruct (getConnection_error drv (events w)); [split; reflexivity|].
    destruct (safe (checkSQLSecurity sql)); simpl; [|eauto].
    unfold readOnly_failure. rewrite <- ?app_assoc. simpl.
    destruct (query_result drv _ SET_READ_ONLY []); simpl;
      [|split; [reflexivity|]; eexists; split; [reflexivity|];
        split; reflexivity].
    destruct (beginTransaction_error drv _); simpl;
      [split; [reflexivity|]; eexists; split; [reflexivity|];
       split; reflexivity|].
    destruct (query_result drv _ sql []); simpl;
      [|split; [reflexivity|]; eexists; split; [reflexivity|];
        split; reflexivity].
    destruct (query_result drv _ SET_READ_WRITE []); simpl;
      [|split; [reflexivity|]; eexists; split; [reflexivity|];
        split; reflexivity].
    split; [eexists; reflexivity|]. eexists. split; [reflexivity|].
    split; reflexivity.
  - intros drv sql params w. rewrite executeModifyQuery_run.
    destruct (getConnection_error drv (events w)); [split; reflexivity|].
    destruct (safe (checkSQLSecurity sql)); simpl; [|eauto].
    unfold modify_failure. rewrite <- ?app_assoc. simpl.
    destruct (beginTransaction_error drv _); simpl;
      [split; [reflexivity|]; eexists; split; [reflexivity|];
       split; reflexivity|].
    destruct (query_result drv _ sql params); simpl;
      [|split; [reflexivity|]; eexists; split; [reflexivity|];
        split; reflexivity].
    eexists. split; [reflexivity|]. intros _. split; reflexivity.
Qed.

(** ** C3: the catalog queries *)

Lemma bind_ret_run A B (m : M A) (f : A -> B) w :
  bind m (fun a => ret (f a)) w
  = (match fst (m w) with
     | Return a => Return (f a)
     | Throw e => Throw e
     end, snd (m w)).
Proof. unfold bind, ret. destruct (m w) as [[a|e] w1]; reflexivity. Qed.

(** What the generic executor returns is what the driver answered to its
    statement, right after the acquisition. *)
Lemma executeQuery_returns drv sql params w results :
  fst (executeQuery drv sql params w) = Return results ->
  query_result drv (events w ++ [EvGetConnection true]) sql params
  = inl results.
Proof.
  rewrite executeQuery_run.
  destruct (getConnection_error drv (events w)); [discriminate|].
  destruct (negb (safe (checkSQLSecurity sql))); [discriminate|].
  destruct (negb (safe (checkQueryLimits sql))); [discriminate|].
  simpl. destruct (query_result drv _ sql params); [|discriminate].
  simpl. now intros [= ->].
Qed.

(** The generic executor sends the database its statement and nothing
    else. *)
Lemma executeQuery_only_statement drv sql params w :
  exists new,
    events (snd (executeQuery drv sql params w)) = events w ++ new
    /\ only_statement sql new.
Proof.
  rewrite executeQuery_run.
  assert (One : forall ok, only_statement sql [EvGetConnection ok]).
  { intros ok e [<-|[]] T. discriminate. }
  destruct (getConnection_error drv (events w)); [eexists; split; [reflexivity|apply One]|].
  destruct (negb (safe (checkSQLSecurity sql)));
    [eexists; split; [reflexivity|apply One]|].
  destruct (negb (safe (checkQueryLimits sql)));
    [eexists; split; [reflexivity|apply One]|].
  simpl. destruct (query_result drv _ sql params); simpl;
    rewrite <- !app_assoc; simpl; (eexists; split; [reflexivity|]);
    intros e [<-|[<-|[<-|[]]]] T; try discriminate; eauto.
Qed.

(** The resource list is built only from an empty answer: the URL of the
    first row already fails. *)
Lemma map_throwing_resource_of_row rows resources :
  map_throwing resource_of_row rows = inl resources ->
  rows = [] /\ resources = [].
Proof.
  destruct rows as [|row rows]; simpl; [intros [= <-]; auto|].
  unfold resource_of_row, new_URL_on_resourceBase. discriminate.
Qed.

(** The driver built on a catalog answers within the current database. *)
Lemma catalog_driver_honours srv : honours_schema_filter (catalog_driver srv) srv.
Proof.
  intros h params rows. unfold catalog_driver. cbn [query_result].
  split.
  - rewrite js_eqb_refl. intros [= <-]. apply Forall_forall. intros row I.
    apply in_map_iff in I as (t & <- & I). apply filter_In in I as [I S].
    exists t. apply js_eqb_eq in S. auto.
  - replace (js_eqb COLUMN_METADATA_QUERY TABLES_QUERY) with false
      by (vm_compute; reflexivity).
    rewrite js_eqb_refl.
    destruct params as [|[|n] [|? ?]]; intros [= <-]; try constructor.
    apply Forall_forall. intros row I.
    apply in_flat_map in I as (t & I & R). apply in_map_iff in R as (c & <- & C).
    apply filter_In in I as [I _]. apply filter_In in I as [I S].
    exists t, c. apply js_eqb_eq in S. auto.
Qed.

(** C3. The two catalog statements carry the condition [table_schema =
    DATABASE()], and the four catalog operations (the tools [list_tables]
    and [describe_table], resource listing and resource reading) send the
    database one of these two texts and nothing else, the table name
    travelling as a bound parameter.  Hence, on any server that evaluates
    that condition as SQL defines it, whatever other schemas its catalog
    holds, every row (every resource) these operations return belongs to a
    table of the current database. *)
Theorem catalog_queries_stay_in_current_database drv srv w :
  honours_schema_filter drv srv ->
  (includes TABLES_QUERY SCHEMA_FILTER = true
   /\ includes COLUMN_METADATA_QUERY SCHEMA_FILTER = true)
  /\ ((exists new,
          events (snd (callTool drv list_tables w)) = events w ++ new
          /\ only_statement TABLES_QUERY new)
      /\ forall response rows,
           fst (callTool drv list_tables w) = Return response ->
           content_text response = JsonQueryResult (RowData rows) ->
           Forall (table_row_of_current_database srv) rows)
  /\ (forall table,
        (exists new,
            events (snd (callTool drv (describe_table table) w))
            = events w ++ new
            /\ only_statement COLUMN_METADATA_QUERY new)
        /\ forall response rows,
             fst (callTool drv (describe_table table) w) = Return response ->
             content_text response = JsonQueryResult (RowData rows) ->
             Forall (column_row_of_current_database srv) rows)
  /\ ((exists new,
          events (snd (listResources drv w)) = events w ++ new
          /\ only_statement TABLES_QUERY new)
      /\ forall resources,
           fst (listResources drv w) = Return resources ->
           Forall (resource_of_current_database srv) resources)
  /\ (forall pathname,
        (exists new,
            events (snd (readResource drv pathname w)) = events w ++ new
            /\ only_statement COLUMN_METADATA_QUERY new)
        /\ forall contents rows,
             fst (readResource drv pathname w) = Return contents ->
             contents_text contents = JsonQueryResult (RowData rows) ->
             Forall (column_row_of_current_database srv) rows).
Proof.
  intros H.
  assert (Tables : forall rows,
             fst (executeQuery drv TABLES_QUERY [] w) = Return (RowData rows) ->
             Forall (table_row_of_current_database srv) rows).
  { intros rows R. apply executeQuery_returns in R.
    exact (proj1 (H _ _ _) R). }
  assert (Columns : forall params rows,
             fst (executeQuery drv COLUMN_METADATA_QUERY params w)
             = Return (RowData rows) ->
             Forall (column_row_of_current_database srv) rows).
  { intros params rows R. apply executeQuery_returns in R.
    exact (proj2 (H _ _ _) R). }
  split; [split; vm_compute; reflexivity|].
  split; [|split; [|split]].
  - unfold callTool. rewrite bind_ret_run. cbn [fst snd].
    split; [apply executeQuery_only_statement|].
    intros response rows R C. apply Tables.
    destruct (fst (executeQuery drv TABLES_QUERY [] w)); [|discriminate].
    injection R as <-. simpl in C. now injection C as ->.
  - intros table. unfold callTool.
    assert (Invalid :
              (exists new,
                  events (snd (throw (A := ToolResponse)
                                 (ErrorObject (u16 "Table name is required")) w))
                  = events w ++ new
                  /\ only_statement COLUMN_METADATA_QUERY new)
              /\ forall response rows,
                   fst (throw (A := ToolResponse)
                          (ErrorObject (u16 "Table name is required")) w)
                   = Return response ->
                   content_text response = JsonQueryResult (RowData rows) ->
                   Forall (column_row_of_current_database srv) rows).
    { split; [|discriminate]. exists []. simpl. rewrite app_nil_r.
      split; [reflexivity|]. intros e []. }
    destruct table as [[|c tableName]|]; [exact Invalid| |exact Invalid].
    rewrite bind_ret_run. cbn [fst snd].
    split; [apply executeQuery_only_statement|].
    intros response rows R C. apply (Columns [JsString (c :: tableName)]).
    destruct (fst (executeQuery drv COLUMN_METADATA_QUERY _ w));
      [|discriminate].
    injection R as <-. simpl in C. now injection C as ->.
  - unfold listResources, bind.
    destruct (executeQuery_only_statement drv TABLES_QUERY [] w)
      as (new & E & O).
    destruct (executeQuery drv TABLES_QUERY [] w) as [[results|e] w1] eqn:Run;
      cbn [fst snd] in *.
    + destruct results as [rows|? ? ?]; unfold ret, throw; cbn [fst snd].
      * destruct (map_throwing resource_of_row rows) as [rs|e] eqn:Mp;
          unfold ret, throw; cbn [fst snd].
        -- split; [eauto|]. intros resources [= <-].
           destruct (map_throwing_resource_of_row rows Mp) as [_ ->].
           constructor.
        -- split; [eauto|]. discriminate.
      * split; [eauto|]. discriminate.
    + split; [eauto|]. discriminate.
  - intros pathname. unfold readResource.
    destruct (pop (split SLASH pathname)) as [schema comps].
    destruct (pop comps) as [tableName comps'].
    assert (Invalid :
              (exists new,
                  events (snd (throw (A := ResourceContents)
                                 (ErrorObject (u16 "Invalid resource URI")) w))
                  = events w ++ new
                  /\ only_statement COLUMN_METADATA_QUERY new)
              /\ forall contents rows,
                   fst (throw (A := ResourceContents)
                          (ErrorObject (u16 "Invalid resource URI")) w)
                   = Return contents ->
                   contents_text contents = JsonQueryResult (RowData rows) ->
                   Forall (column_row_of_current_database srv) rows).
    { split; [|discriminate]. exists []. simpl. rewrite app_nil_r.
      split; [reflexivity|]. intros e []. }
    destruct schema as [|s]; [exact Invalid|].
    destruct (js_eqb s (u16 "schema")); [|exact Invalid].
    rewrite bind_ret_run. cbn [fst snd].
    split; [apply executeQuery_only_statement|].
    intros contents rows R C. apply (Columns [tableName]).
    destruct (fst (executeQuery drv COLUMN_METADATA_QUERY _ w));
      [|discriminate].
    injection R as <-. simpl in C. now injection C as ->.
Qed.

Lemma catalog_queries_stay_in_current_database_witness :
  (includes TABLES_QUERY SCHEMA_FILTER = true
   /\ includes COLUMN_METADATA_QUERY SCHEMA_FILTER = true)
  /\ ((exists new,
          events (snd (callTool demo_driver list_tables initial_world)) = events initial_world ++ new
          /\ only_statement TABLES_QUERY new)
      /\ forall response rows,
           fst (callTool demo_driver list_tables initial_world) = Return response ->
           content_text response = JsonQueryResult (RowData rows) ->
           Forall (table_row_of_current_database demo_server) rows)
  /\ (forall table,
        (exists new,
            events (snd (callTool demo_driver (describe_table table) initial_world))
            = events initial_world ++ new
            /\ only_statement COLUMN_METADATA_QUERY new)
        /\ forall response rows,
             fst (callTool demo_driver (describe_table table) initial_world) = Return response ->
             content_text response = JsonQueryResult (RowData rows) ->
             Forall (column_row_of_current_database demo_server) rows)
  /\ ((exists new,
          events (snd (listResources demo_driver initial_world)) = events initial_world ++ new
          /\ only_statement TABLES_QUERY new)
      /\ forall resources,
           fst (listResources demo_driver initial_world) = Return resources ->
           Forall (resource_of_current_database demo_server) resources)
  /\ (forall pathname,
        (exists new,
            events (snd (readResource demo_driver pathname initial_world)) = events initial_world ++ new
            /\ only_statement COLUMN_METADATA_QUERY new)
        /\ forall contents rows,
             fst (readResource demo_driver pathname initial_world) = Return contents ->
             contents_text contents = JsonQueryResult (RowData rows) ->
             Forall (column_row_of_current_database demo_server) rows).
Proof.
  exact (@catalog_queries_stay_in_current_database demo_driver demo_server
           initial_world (catalog_driver_honours demo_server)).
Defined.

(** Resource listing on a database that has tables: the lookup is made and
    the connection released, then building the first URI throws. *)
Example listResources_invalid_url :
  fst (listResources demo_driver initial_world)
  = Throw (ErrorObject (u16 "Invalid URL"))
  /\ events (snd (listResources demo_driver initial_world))
     = [EvGetConnection true; EvQuery TABLES_QUERY [] true; EvRelease].
Proof. split; vm_compute; reflexivity. Qed.

(* ================================================================== *)
(** * Part III: further properties of the code *)
(* ================================================================== *)

(** ** The guard under padding and under change of case *)

Lemma Contains_extend r pre s post :
  Contains r s -> Contains r (pre ++ s ++ post).
Proof.
  intros (a & w & b & -> & M). exists (pre ++ a), w, (b ++ post).
  split; [|exact M]. now rewrite <- !app_assoc.
Qed.

(** X1. A statement the guard rejects stays rejected whatever text is put
    before or after it: the denylist cannot be escaped by padding. *)
Theorem guard_rejects_any_extension pre sql post :
  safe (checkSQLSecurity sql) = false ->
  checkSQLSecurity (pre ++ sql ++ post)
  = {| safe := false; reason := Some reason_injection |}.
Proof.
  intros U. unfold checkSQLSecurity in *.
  apply checkPatterns_unsafe_iff.
  destruct (checkPatterns_cases dangerousPatterns sql) as [E|E];
    [|rewrite E in U; discriminate].
  apply checkPatterns_unsafe_iff in E as (p & I & T).
  exists p. split; [exact I|].
  apply test_true_iff, Contains_extend. now apply test_true_iff.
Qed.

Lemma guard_rejects_any_extension_witness :
  checkSQLSecurity (u16 "/* note */ " ++ stacked_statement ++ u16 " -- end")
  = {| safe := false; reason := Some reason_injection |}.
Proof.
  apply (guard_rejects_any_extension (u16 "/* note */ ") stacked_statement
           (u16 " -- end")).
  vm_compute. reflexivity.
Defined.

Lemma isWhiteSpace_not_letter c :
  isWhiteSpace c = true -> (c < 65 \/ 122 < c)%N.
Proof.
  unfold isWhiteSpace.
  rewrite !orb_true_iff, !andb_true_iff, !N.leb_le, !N.eqb_eq. lia.
Qed.


Lemma isWhiteSpace_canonicalize c :
  isWhiteSpace (canonicalize c) = isWhiteSpace c.
Proof.
  unfold canonicalize.
  destruct (N.leb_spec 97 c), (N.leb_spec c 122); cbn [andb]; try reflexivity.
  destruct (isWhiteSpace (c - 32)%N) eqn:A, (isWhiteSpace c) eqn:B;
    try reflexivity.
  - apply isWhiteSpace_not_letter in A. lia.
  - apply isWhiteSpace_not_letter in B. lia.
Qed.

(** Under the [i] flag an atom cannot tell two units with the same
    canonical form apart. *)
Lemma atomMatches_same_case a c1 c2 :
  canonicalize c1 = canonicalize c2 ->
  atomMatches true a c1 = atomMatches true a c2.
Proof.
  intros E. destruct a as [p|]; simpl.
  - now rewrite E.
  - now rewrite <- (isWhiteSpace_canonicalize c1), E, isWhiteSpace_canonicalize.
Qed.

Lemma same_up_to_case_cons c1 s1 c2 s2 :
  same_up_to_case (c1 :: s1) (c2 :: s2) ->
  canonicalize c1 = canonicalize c2 /\ same_up_to_case s1 s2.
Proof. unfold same_up_to_case. simpl. now intros [= -> ->]. Qed.

Lemma repeatGreedy_same_case f k s1 :
  forall s2,
    (forall c1 c2, canonicalize c1 = canonicalize c2 -> f c1 = f c2) ->
    (forall t1 t2, same_up_to_case t1 t2 -> k t1 = k t2) ->
    same_up_to_case s1 s2 ->
    repeatGreedy f k s1 = repeatGreedy f k s2.
Proof.
  induction s1 as [|c1 s1 IH]; intros [|c2 s2] F K E; try discriminate.
  - simpl. now apply K.
  - simpl. pose proof (same_up_to_case_cons E) as [Ec Es].
    rewrite (F c1 c2 Ec), (IH s2 F K Es), (K _ _ E). reflexivity.
Qed.

Lemma matchFrom_same_case p :
  forall s1 s2,
    same_up_to_case s1 s2 -> matchFrom true p s1 = matchFrom true p s2.
Proof.
  induction p as [|[a q] p IH]; intros s1 s2 E; [reflexivity|].
  destruct q; simpl.
  - destruct s1 as [|c1 s1], s2 as [|c2 s2]; try discriminate; [reflexivity|].
    apply same_up_to_case_cons in E as [Ec Es].
    now rewrite (atomMatches_same_case a c1 c2 Ec), (IH s1 s2 Es).
  - apply repeatGreedy_same_case; auto using atomMatches_same_case.
  - destruct s1 as [|c1 s1], s2 as [|c2 s2]; try discriminate; [reflexivity|].
    apply same_up_to_case_cons in E as [Ec Es].
    rewrite (atomMatches_same_case a c1 c2 Ec).
    destruct (atomMatches true a c2); [|reflexivity].
    apply repeatGreedy_same_case; auto using atomMatches_same_case.
Qed.

Lemma test_same_case r s1 :
  forall s2,
    ignoreCase r = true -> same_up_to_case s1 s2 -> test r s1 = test r s2.
Proof.
  induction s1 as [|c1 s1 IH]; intros [|c2 s2] I E; try discriminate.
  - reflexivity.
  - simpl. rewrite I, (matchFrom_same_case (source r) E).
    apply same_up_to_case_cons in E as [_ Es]. now rewrite (IH s2 I Es).
Qed.

(** X2. The verdict of the guard does not depend on the case of ASCII
    letters: two statements with the same canonical (upper-case) form get
    the same verdict. *)
Theorem guard_ignores_letter_case s1 s2 :
  same_up_to_case s1 s2 -> checkSQLSecurity s1 = checkSQLSecurity s2.
Proof.
  intros E. unfold checkSQLSecurity.
  assert (I : Forall (fun r => ignoreCase r = true) dangerousPatterns)
    by (repeat constructor).
  induction I as [|r rs Ir _ IH]; simpl; [reflexivity|].
  now rewrite (test_same_case r Ir E), IH.
Qed.

Lemma guard_ignores_letter_case_witness :
  checkSQLSecurity stacked_lower = checkSQLSecurity (u16 "SELECT 1; DROP TABLE X").
Proof.
  apply (@guard_ignores_letter_case stacked_lower
           (u16 "SELECT 1; DROP TABLE X")).
  vm_compute. reflexivity.
Defined.

(** ** What a handler run adds to the history *)

Lemma bracketed_used mid :
  mid <> [] -> Forall (fun e => touches_database e = true) mid ->
  bracketed (EvGetConnection true :: mid ++ [EvRelease]).
Proof. intros N F. right. right. right. exists mid. auto. Qed.

Ltac bracket :=
  first
    [ left; reflexivity
    | right; left; reflexivity
    | right; right; left; reflexivity
    | match goal with
      | |- bracketed (EvGetConnection true :: ?l) =>
          let m := eval simpl in (removelast l) in
          change (bracketed (EvGetConnection true :: m ++ [EvRelease]));
          apply bracketed_used; [discriminate|repeat constructor]
      end ].

Ltac keeps_idle :=
  intros [it ro pe co] [T P]; simpl in T, P; subst;
  unfold session_after, idle; simpl; auto.

Lemma executeQuery_bracketed drv sql params w :
  exists new,
    events (snd (executeQuery drv sql params w)) = events w ++ new
    /\ bracketed new
    /\ forall st, idle st -> idle (session_after st new).
Proof.
  rewrite executeQuery_run.
  destruct (getConnection_error drv (events w));
    [eexists; split; [reflexivity|split; [bracket|keeps_idle]]|].
  destruct (negb (safe (checkSQLSecurity sql)));
    [eexists; split; [reflexivity|split; [bracket|keeps_idle]]|].
  destruct (negb (safe (checkQueryLimits sql)));
    [eexists; split; [reflexivity|split; [bracket|keeps_idle]]|].
  simpl. oracle; simpl; rewrite <- ?app_assoc; simpl;
    (eexists; split; [reflexivity|split; [bracket|keeps_idle]]).
Qed.

Lemma executeReadOnlyQuery_bracketed drv sql w :
  exists new,
    events (snd (executeReadOnlyQuery drv sql w)) = events w ++ new
    /\ bracketed new
    /\ forall st, idle st -> idle (session_after st new).
Proof.
  rewrite executeReadOnlyQuery_run.
  destruct (getConnection_error drv (events w));
    [eexists; split; [reflexivity|split; [bracket|keeps_idle]]|].
  destruct (negb (safe (checkSQLSecurity sql)));
    [eexists; split; [reflexivity|split; [bracket|keeps_idle]]|].
  simpl.
  repeat (oracle; simpl; rewrite <- ?app_assoc; simpl);
    (eexists; split; [reflexivity|split; [bracket|keeps_idle]]).
Qed.

(** The modify executor never learns whether its COMMIT was accepted: the
    session is left idle when it was. *)
Lemma executeModifyQuery_bracketed drv sql params w :
  exists new,
    events (snd (executeModifyQuery drv sql params w)) = events w ++ new
    /\ bracketed new
    /\ ((forall h, commit_error drv h = None) ->
        forall st, idle st -> idle (session_after st new)).
Proof.
  rewrite executeModifyQuery_run.
  destruct (getConnection_error drv (events w));
    [eexists; split; [reflexivity|split; [bracket|intros _; keeps_idle]]|].
  destruct (negb (safe (checkSQLSecurity sql)));
    [eexists; split; [reflexivity|split; [bracket|intros _; keeps_idle]]|].
  simpl.
  destruct (beginTransaction_error drv _); simpl; rewrite <- ?app_assoc; simpl;
    [eexists; split; [reflexivity|split; [bracket|intros _; keeps_idle]]|].
  destruct (query_result drv _ sql params); simpl; rewrite <- ?app_assoc; simpl;
    [|eexists; split; [reflexivity|split; [bracket|intros _; keeps_idle]]].
  destruct (commit_error drv _) eqn:C; simpl;
    (eexists; split; [reflexivity|split; [bracket|]]).
  - intros Accepts. rewrite Accepts in C. discriminate.
  - intros _. keeps_idle.
Qed.

(** A continuation that leaves the world alone does not change what the
    first part did to it. *)
Lemma snd_bind_pure A B (m : M A) (k : A -> M B) w :
  (forall a w', snd (k a w') = w') ->
  snd (bind m k w) = snd (m w).
Proof.
  intros K. unfold bind. destruct (m w) as [[a|e] w1]; simpl; [apply K|reflexivity].
Qed.

Lemma count_none f l :
  Forall (fun e => f e = false) l -> count f l = 0.
Proof.
  unfold count. induction 1 as [|e l E _ IH]; simpl; [reflexivity|].
  now rewrite E.
Qed.

Lemma bracketed_counts new :
  bracketed new ->
  count is_acquire new <= 1
  /\ count is_release new <= count is_acquire new
  /\ (count touches_database new <> 0 ->
      count is_acquire new = 1 /\ count is_release new = 1).
Proof.
  intros [->|[->|[->|(mid & -> & N & F)]]];
    try (cbv; repeat split; try lia; intros []; reflexivity).
  assert (A : count is_acquire (mid ++ [EvRelease]) = 0).
  { apply count_none, Forall_app. split; [|repeat constructor].
    eapply Forall_impl; [|exact F]. now intros [| | | | |]. }
  assert (R : count is_release (mid ++ [EvRelease]) = 1).
  { unfold count. rewrite filter_app, length_app. simpl.
    fold (count is_release mid). rewrite count_none; [reflexivity|].
    eapply Forall_impl; [|exact F]. now intros [| | | | |]. }
  unfold count in *. simpl. rewrite A, R. repeat split; lia.
Qed.

(** ** X3: what a handler run adds to the history *)

(** X3. Whatever the request and whatever the driver answers, a handler run
    only appends to the history of driver calls, and what it appends is:
    nothing; or a refused acquisition; or an acquisition alone; or an
    acquisition, one or more calls on the connection, and the release as the
    last call.  So a run borrows at most one connection, never releases more
    than it borrowed, never talks to the database without a granted
    connection or after the release, and always releases a connection it
    has used. *)
Theorem handler_run_is_bracketed drv w :
  (forall request,
      exists new,
        events (snd (callTool drv request w)) = events w ++ new
        /\ bracketed new
        /\ count is_acquire new <= 1
        /\ count is_release new <= count is_acquire new
        /\ (count touches_database new <> 0 ->
            count is_acquire new = 1 /\ count is_release new = 1))
  /\ (exists new,
         events (snd (listResources drv w)) = events w ++ new
         /\ bracketed new)
  /\ (forall pathname,
        exists new,
          events (snd (readResource drv pathname w)) = events w ++ new
          /\ bracketed new).
Proof.
  assert (Nothing : exists new, events w = events w ++ new /\ bracketed new).
  { exists []. split; [now rewrite app_nil_r|now left]. }
  assert (Call : forall request,
             exists new,
               events (snd (callTool drv request w)) = events w ++ new
               /\ bracketed new).
  { intros [sql|sql params| |table|name]; unfold callTool.
    - destruct (executeReadOnlyQuery_bracketed drv sql w) as (new & E & B & _).
      eauto.
    - destruct (js_eqb (sqlTypeOf sql) SELECT); [exact Nothing|].
      rewrite snd_bind_pure by reflexivity.
      destruct (executeModifyQuery_bracketed drv sql
                  (match params with Some ps => ps | None => [] end) w)
        as (new & E & B & _).
      eauto.
    - rewrite snd_bind_pure by reflexivity.
      destruct (executeQuery_bracketed drv TABLES_QUERY [] w)
        as (new & E & B & _).
      eauto.
    - destruct table as [[|c t]|]; try exact Nothing.
      rewrite snd_bind_pure by reflexivity.
      destruct (executeQuery_bracketed drv COLUMN_METADATA_QUERY
                  [JsString (c :: t)] w) as (new & E & B & _).
      eauto.
    - exact Nothing. }
  split; [|split].
  - intros request. destruct (Call request) as (new & E & B).
    exists new. split; [exact E|]. split; [exact B|].
    now apply bracketed_counts.
  - unfold listResources. rewrite snd_bind_pure.
    + destruct (executeQuery_bracketed drv TABLES_QUERY [] w)
        as (new & E & B & _).
      eauto.
    + intros [rows|? ? ?] w'; [|reflexivity].
      destruct (map_throwing resource_of_row rows); reflexivity.
  - intros pathname. unfold readResource.
    destruct (pop (split SLASH pathname)) as [schema comps].
    destruct (pop comps) as [tableName comps'].
    destruct schema as [|s]; [exact Nothing|].
    destruct (js_eqb s (u16 "schema")); [|exact Nothing].
    rewrite snd_bind_pure by reflexivity.
    destruct (executeQuery_bracketed drv COLUMN_METADATA_QUERY [tableName] w)
      as (new & E & B & _).
    eauto.
Qed.

(** ** X4: no handler leaves a transaction open *)

(** X4. Whatever the request and whatever the driver answers to the other
    calls, a tool call that finds the session of its connection idle (no
    transaction open, nothing pending) leaves it idle, provided that, when
    the call is a [mysql_execute], the server accepts the COMMIT (the code
    never learns whether it did): every begin the code issues is then
    matched by an accepted commit or by a rollback before the release. *)
Theorem tool_call_keeps_session_idle drv request w :
  (forall sql params,
      request = mysql_execute sql params ->
      forall h, commit_error drv h = None) ->
  exists new,
    events (snd (callTool drv request w)) = events w ++ new
    /\ forall st, idle st -> idle (session_after st new).
Proof.
  intros Accepts.
  assert (Nothing : exists new,
             events w = events w ++ new
             /\ forall st, idle st -> idle (session_after st new)).
  { exists []. split; [now rewrite app_nil_r|auto]. }
  destruct request as [sql|sql params| |table|name]; unfold callTool.
  - destruct (executeReadOnlyQuery_bracketed drv sql w) as (new & E & _ & I).
    eauto.
  - destruct (js_eqb (sqlTypeOf sql) SELECT); [exact Nothing|].
    rewrite snd_bind_pure by reflexivity.
    destruct (executeModifyQuery_bracketed drv sql
                (match params with Some ps => ps | None => [] end) w)
      as (new & E & _ & I).
    exists new. split; [exact E|]. apply I. exact (Accepts sql params eq_refl).
  - rewrite snd_bind_pure by reflexivity.
    destruct (executeQuery_bracketed drv TABLES_QUERY [] w)
      as (new & E & _ & I).
    eauto.
  - destruct table as [[|c t]|]; try exact Nothing.
    rewrite snd_bind_pure by reflexivity.
    destruct (executeQuery_bracketed drv COLUMN_METADATA_QUERY
                [JsString (c :: t)] w) as (new & E & _ & I).
    eauto.
  - exact Nothing.
Qed.

Lemma tool_call_keeps_session_idle_witness :
  exists new,
    events (snd (callTool ok_driver
                   (mysql_execute insert_statement
                      (Some [JsString (u16 "1")])) initial_world))
    = events initial_world ++ new
    /\ forall st, idle st -> idle (session_after st new).
Proof.
  apply (@tool_call_keeps_session_idle ok_driver
           (mysql_execute insert_statement (Some [JsString (u16 "1")]))
           initial_world).
  intros sql params _ h. reflexivity.
Defined.

(** ** X5: when the generic executor reaches the database *)

Lemma checkQueryLimits_safe_iff sql :
  safe (checkQueryLimits sql) = true
  <-> (N.of_nat (List.length sql) <= maxQueryLength)%N.
Proof.
  unfold checkQueryLimits.
  destruct (N.ltb_spec maxQueryLength (N.of_nat (List.length sql))); simpl;
    split; intros; try discriminate; try reflexivity; lia.
Qed.

(** X5. The generic executor sends something to the database exactly when
    the pool grants a connection, the statement matches no denylist pattern
    and it is at most 4096 code units long (4096 itself passes); what it
    then sends is its statement with its parameters, once. *)
Theorem executeQuery_reaches_database_iff drv sql params w :
  exists new,
    events (snd (executeQuery drv sql params w)) = events w ++ new
    /\ (count touches_database new <> 0
        <-> getConnection_error drv (events w) = None
            /\ safe (checkSQLSecurity sql) = true
            /\ (N.of_nat (List.length sql) <= maxQueryLength)%N)
    /\ (count touches_database new <> 0 ->
        exists ok, new = [EvGetConnection true; EvQuery sql params ok;
                          EvRelease]).
Proof.
  rewrite executeQuery_run.
  destruct (getConnection_error drv (events w)) as [e|].
  { eexists. split; [reflexivity|].
    cbv [count filter touches_database List.length].
    split; [split; [now intros []|now intros [[=] _]]|now intros []]. }
  destruct (safe (checkSQLSecurity sql)); simpl.
  2:{ eexists. split; [reflexivity|].
      cbv [count filter touches_database List.length].
      split; [split; [now intros []|now intros (_ & [=] & _)]|now intros []]. }
  destruct (safe (checkQueryLimits sql)) eqn:L; simpl.
  2:{ eexists. split; [reflexivity|].
      cbv [count filter touches_database List.length].
      split; [split; [now intros []|]|now intros []].
      intros (_ & _ & Len). apply checkQueryLimits_safe_iff in Len.
      rewrite L in Len. discriminate. }
  apply checkQueryLimits_safe_iff in L.
  oracle; simpl; rewrite <- ?app_assoc; simpl;
    (eexists; split; [reflexivity|]);
    cbv [count filter touches_database List.length];
    (split; [split; [auto|discriminate]|eauto]).
Qed.

(** ** X6: the balance of the pool *)

(** X6. An executor call borrows and gives back as follows, whatever the
    driver answers afterwards: with a refused acquisition nothing is
    borrowed; with a granted one and the guards passed the connection is
    released, so acquisitions and releases balance; with a granted one and
    the statement rejected (by the denylist, or by the length rule in the
    generic executor) the call ends holding the connection, one acquisition
    more than releases. *)
Theorem pool_balance_of_executors drv sql params w :
  let leak (checked : bool) :=
    match getConnection_error drv (events w) with
    | None => if checked then 0 else 1
    | Some _ => 0
    end in
  (exists new,
      events (snd (executeQuery drv sql params w)) = events w ++ new
      /\ count is_acquire new
         = count is_release new
           + leak (safe (checkSQLSecurity sql) && safe (checkQueryLimits sql)))
  /\ (exists new,
         events (snd (executeReadOnlyQuery drv sql w)) = events w ++ new
         /\ count is_acquire new
            = count is_release new + leak (safe (checkSQLSecurity sql)))
  /\ (exists new,
         events (snd (executeModifyQuery drv sql params w)) = events w ++ new
         /\ count is_acquire new
            = count is_release new + leak (safe (checkSQLSecurity sql))).
Proof.
  intros leak. subst leak. split; [|split].
  - rewrite executeQuery_run.
    destruct (getConnection_error drv (events w));
      [eexists; split; reflexivity|].
    destruct (safe (checkSQLSecurity sql)); simpl;
      [|eexists; split; reflexivity].
    destruct (safe (checkQueryLimits sql)); simpl;
      [|eexists; split; reflexivity].
    oracle; simpl; rewrite <- ?app_assoc; simpl; eexists; split; reflexivity.
  - rewrite executeReadOnlyQuery_run.
    destruct (getConnection_error drv (events w));
      [eexists; split; reflexivity|].
    destruct (safe (checkSQLSecurity sql)); simpl;
      [|eexists; split; reflexivity].
    repeat (oracle; simpl; rewrite <- ?app_assoc; simpl);
      eexists; split; reflexivity.
  - rewrite executeModifyQuery_run.
    destruct (getConnection_error drv (events w));
      [eexists; split; reflexivity|].
    destruct (safe (checkSQLSecurity sql)); simpl;
      [|eexists; split; reflexivity].
    repeat (oracle; simpl; rewrite <- ?app_assoc; simpl);
      eexists; split; reflexivity.
Qed.

(** ** X7: a snapshot read has no durable effect *)

(** X7. Whatever the statement and whatever the driver answers, on an idle
    session the only statements of a [mysql_query] call that take effect
    durably are the two SET SESSION TRANSACTION statements: the statement of
    the caller runs only inside the transaction, which is rolled back. *)
Theorem mysql_query_statement_is_rolled_back drv sql w :
  exists new,
    events (snd (callTool drv (mysql_query sql) w)) = events w ++ new
    /\ forall st,
         idle st ->
         exists effects,
           committed (session_after st new) = committed st ++ effects
           /\ Forall access_mode_statement effects.
Proof.
  unfold callTool. rewrite executeReadOnlyQuery_run.
  assert (Nothing : forall st, exists effects,
               committed st = committed st ++ effects
               /\ Forall access_mode_statement effects).
  { intros st. exists []. split; [now rewrite app_nil_r|constructor]. }
  destruct (getConnection_error drv (events w));
    [eexists; split; [reflexivity|intros st _; apply Nothing]|].
  destruct (negb (safe (checkSQLSecurity sql)));
    [eexists; split; [reflexivity|intros st _; apply Nothing]|].
  simpl.
  repeat (oracle; simpl; rewrite <- ?app_assoc; simpl);
    (eexists; split; [reflexivity|]);
    intros [it ro pe co] [T P]; simpl in T, P; subst;
    unfold session_after; simpl; rewrite <- ?app_assoc; simpl;
    try (exists []; split; [now rewrite app_nil_r|constructor]);
    eexists; (split; [reflexivity|]);
    repeat (apply Forall_cons; [unfold access_mode_statement; auto|]);
    apply Forall_nil.
Qed.

(** ** X8: a failed snapshot read leaves the session read-only *)

(** X8. When [executeReadOnlyQuery] has switched the session to read-only
    and a later step fails, the error path rolls back and releases but does
    not switch the session back: the connection returns to the pool with a
    read-only session.  (The statement is assumed not to be the SET ... READ
    WRITE text itself.) *)
Theorem failed_snapshot_read_leaves_session_read_only drv sql w error :
  getConnection_error drv (events w) = None ->
  safe (checkSQLSecurity sql) = true ->
  (exists r, query_result drv (events w ++ [EvGetConnection true])
               SET_READ_ONLY [] = inl r) ->
  js_eqb sql SET_READ_WRITE = false ->
  fst (executeReadOnlyQuery drv sql w) = Throw error ->
  exists new,
    events (snd (executeReadOnlyQuery drv sql w)) = events w ++ new
    /\ count is_release new = 1
    /\ forall st, read_only (session_after st new) = true.
Proof.
  intros Acq G [r RO] NotRW. rewrite executeReadOnlyQuery_run, Acq.
  rewrite (checkSQLSecurity_safe sql G). simpl. rewrite RO.
  repeat (oracle; simpl; rewrite <- ?app_assoc; simpl);
    intros Run; try discriminate;
    (eexists; split; [reflexivity|split; [reflexivity|]]);
    intros [it ro pe co]; unfold session_after;
    cbn -[js_eqb SET_READ_ONLY SET_READ_WRITE];
    rewrite ?js_eqb_refl, ?NotRW;
    destruct it; cbn -[js_eqb SET_READ_ONLY SET_READ_WRITE];
    rewrite ?js_eqb_refl, ?NotRW;
    try reflexivity; destruct (js_eqb sql SET_READ_ONLY); reflexivity.
Qed.

Lemma failed_snapshot_read_leaves_session_read_only_witness :
  exists new,
    events (snd (executeReadOnlyQuery refusing_driver (u16 "SELECT * FROM missing") initial_world)) = events initial_world ++ new
    /\ count is_release new = 1
    /\ forall st, read_only (session_after st new) = true.
Proof.
  apply (@failed_snapshot_read_leaves_session_read_only refusing_driver
           (u16 "SELECT * FROM missing") initial_world duplicate_entry).
  - reflexivity.
  - vm_compute. reflexivity.
  - eexists. vm_compute. reflexivity.
  - vm_compute. reflexivity.
  - vm_compute. reflexivity.
Defined.

(** ** X9: how [mysql_execute] reports failures *)

(** X9. What a [mysql_execute] call with its [sql] string comes back with
    is decided as follows.  When the first token is SELECT it throws the
    usage-guidance error.  Otherwise, when the pool grants no connection it
    throws the pool's error.  Otherwise nothing is thrown: a guard
    rejection, a failed begin and a failed statement come back as an
    envelope whose [isError] flag is set and whose answer is [{success:
    false, message}], the message being the guard's reason or the message of
    the driver's error ("未知錯誤" for a thrown value that is no Error); and
    when the driver accepts begin and the statement the envelope has the
    flag clear and carries [{success: true, affectedRows, insertId,
    message}] read off the statement's result, whether or not the server
    then accepts the COMMIT. *)
Theorem mysql_execute_reports_failures_in_the_envelope drv sql params w :
  if js_eqb (sqlTypeOf sql) SELECT
  then fst (callTool drv (mysql_execute sql params) w)
       = Throw (ErrorObject use_mysql_query)
  else
  match getConnection_error drv (events w) with
  | Some error =>
      fst (callTool drv (mysql_execute sql params) w) = Throw error
  | None =>
  if negb (safe (checkSQLSecurity sql))
  then fst (callTool drv (mysql_execute sql params) w)
       = Return {| content_text :=
                     JsonExecuteResult
                       {| success := false; affectedRows := None;
                          insertId := None;
                          message := Some reason_injection |};
                   isError := true |}
  else
  match beginTransaction_error drv (events w ++ [EvGetConnection true]) with
  | Some error =>
      fst (callTool drv (mysql_execute sql params) w)
      = Return {| content_text :=
                    JsonExecuteResult
                      {| success := false; affectedRows := None;
                         insertId := None;
                         message := Some (error_message error) |};
                  isError := true |}
  | None =>
  match query_result drv
          (events w ++ [EvGetConnection true; EvBeginTransaction true]) sql
          (match params with Some ps => ps | None => [] end) with
  | inr error =>
      fst (callTool drv (mysql_execute sql params) w)
      = Return {| content_text :=
                    JsonExecuteResult
                      {| success := false; affectedRows := None;
                         insertId := None;
                         message := Some (error_message error) |};
                  isError := true |}
  | inl result =>
      fst (callTool drv (mysql_execute sql params) w)
      = Return {| content_text :=
                    JsonExecuteResult
                      {| success := true;
                         affectedRows := affectedRowsOf result;
                         insertId := insertIdOf result;
                         message := messageOf result |};
                  isError := false |}
  end end end.
Proof.
  unfold callTool.
  destruct (js_eqb (sqlTypeOf sql) SELECT) eqn:S; [reflexivity|].
  rewrite bind_ret_run, executeModifyQuery_run.
  destruct (getConnection_error drv (events w)) as [e|]; simpl; [reflexivity|].
  destruct (checkSQLSecurity_cases sql) as [G|G]; rewrite G; simpl;
    [reflexivity|].
  rewrite <- ?app_assoc. simpl.
  destruct (beginTransaction_error drv _); simpl; [reflexivity|].
  destruct (query_result drv _ sql _); reflexivity.
Qed.

(** The modify executor against a driver that throws a value that is no
    Error: the answer and the log carry "未知錯誤". *)
Example modify_run_odd_throw :
  fst (callTool odd_driver (mysql_execute insert_statement None) initial_world)
  = Return {| content_text :=
                JsonExecuteResult
                  {| success := false; affectedRows := None; insertId := None;
                     message := Some unknown_error |};
              isError := true |}
  /\ map log_error
       (logs (snd (callTool odd_driver (mysql_execute insert_statement None)
                     initial_world)))
     = [Some unknown_error].
Proof. split; vm_compute; reflexivity. Qed.


(** ** Trimming *)

Lemma dropWhile_nil_iff {A} (f : A -> bool) l :
  dropWhile f l = [] <-> forallb f l = true.
Proof.
  induction l as [|x l IH]; simpl; [tauto|].
  destruct (f x); simpl; [exact IH|]. split; discriminate.
Qed.

Lemma dropWhile_app_all {A} (f : A -> bool) l1 l2 :
  forallb f l1 = true -> dropWhile f (l1 ++ l2) = dropWhile f l2.
Proof.
  induction l1 as [|x l1 IH]; simpl; [reflexivity|].
  intros H. apply andb_true_iff in H as [-> H]. auto.
Qed.

Lemma dropWhile_app_stop {A} (f : A -> bool) l1 l2 :
  dropWhile f l1 <> [] -> dropWhile f (l1 ++ l2) = dropWhile f l1 ++ l2.
Proof.
  induction l1 as [|x l1 IH]; simpl; [contradiction|].
  destruct (f x); auto.
Qed.

Lemma forallb_rev {A} (f : A -> bool) l :
  forallb f (rev l) = forallb f l.
Proof.
  induction l as [|x l IH]; simpl; [reflexivity|].
  rewrite forallb_app, IH. simpl. rewrite andb_true_r. apply andb_comm.
Qed.

(** Trimming the right end of [a ++ b] when [a] ends in a unit that stays. *)
Lemma rtrim_app (f : code_unit -> bool) a x b :
  f x = false ->
  rev (dropWhile f (rev ((a ++ [x]) ++ b)))
  = (a ++ [x]) ++ rev (dropWhile f (rev b)).
Proof.
  intros X. rewrite rev_app_distr.
  destruct (dropWhile f (rev b)) as [|y d] eqn:D.
  - apply dropWhile_nil_iff in D.
    rewrite dropWhile_app_all by exact D.
    rewrite rev_app_distr. simpl. rewrite X. simpl.
    now rewrite rev_involutive, app_nil_r.
  - rewrite dropWhile_app_stop by (rewrite D; discriminate).
    rewrite D, rev_app_distr, rev_involutive. reflexivity.
Qed.

(** The trimmed right end is a prefix of what was there. *)
Lemma rtrim_prefix (f : code_unit -> bool) b :
  exists t, b = rev (dropWhile f (rev b)) ++ t.
Proof.
  exists (rev (takeWhile f (rev b))).
  rewrite <- rev_app_distr, <- takeWhile_dropWhile. now rewrite rev_involutive.
Qed.

(** White space around a statement does not survive [trim]. *)
Lemma trim_surrounding lead s trail :
  Forall (fun x => isWhiteSpace x = true) lead ->
  Forall (fun x => isWhiteSpace x = true) trail ->
  trim (lead ++ s ++ trail) = trim s.
Proof.
  intros L T. apply forallb_Forall_true in L, T. unfold trim.
  rewrite dropWhile_app_all by exact L.
  destruct (dropWhile isWhiteSpace s) as [|y d] eqn:D.
  - apply dropWhile_nil_iff in D.
    rewrite dropWhile_app_all by exact D.
    apply dropWhile_nil_iff in T. now rewrite T.
  - rewrite dropWhile_app_stop by (rewrite D; discriminate).
    rewrite D, rev_app_distr, dropWhile_app_all; [reflexivity|].
    now rewrite forallb_rev.
Qed.

(** ** X10: the statement kind ignores surrounding white space *)

(** X10. White space (spaces, tabs, line breaks and the other units [trim]
    strips) before and after a statement changes neither the operation kind
    derived from it nor, therefore, whether [mysql_execute] refuses it as a
    SELECT. *)
Theorem statement_kind_ignores_surrounding_space drv lead sql trail params w :
  Forall (fun x => isWhiteSpace x = true) lead ->
  Forall (fun x => isWhiteSpace x = true) trail ->
  sqlTypeOf (lead ++ sql ++ trail) = sqlTypeOf sql
  /\ (callTool drv (mysql_execute (lead ++ sql ++ trail) params) w
      = (Throw (ErrorObject use_mysql_query), w)
      <-> callTool drv (mysql_execute sql params) w
          = (Throw (ErrorObject use_mysql_query), w)).
Proof.
  intros L T.
  assert (K : sqlTypeOf (lead ++ sql ++ trail) = sqlTypeOf sql).
  { unfold sqlTypeOf. now rewrite trim_surrounding. }
  split; [exact K|].
  assert (Grow : forall s ps e,
             js_eqb (sqlTypeOf s) SELECT = false ->
             callTool drv (mysql_execute s ps) w <> (Throw e, w)).
  { intros s ps e S Run. unfold callTool in Run. rewrite S in Run.
    apply (f_equal snd) in Run. rewrite snd_bind_pure in Run by reflexivity.
    destruct (executeModifyQuery_bracketed drv s
                (match ps with Some p => p | None => [] end) w)
      as (new & E & B & _).
    cbn [snd] in Run. rewrite Run in E.
    assert (N : new = []).
    { apply (f_equal (@List.length Event)) in E. rewrite length_app in E.
      destruct new; [reflexivity|simpl in E; lia]. }
    subst new. revert B. rewrite executeModifyQuery_run in Run.
    destruct (getConnection_error drv (events w)).
    { apply (f_equal events) in Run. simpl in Run.
      apply (f_equal (@List.length Event)) in Run. rewrite length_app in Run.
      simpl in Run. lia. }
    clear E. intros _.
    assert (Len : forall w', events w' = events w ->
                             List.length (events w') = List.length (events w))
      by (now intros w' ->).
    specialize (Len _ (f_equal events Run)). revert Len.
    destruct (negb (safe (checkSQLSecurity s))); simpl;
      [rewrite length_app; simpl; lia|].
    repeat (oracle; simpl); rewrite ?length_app; simpl; lia. }
  unfold callTool. rewrite K.
  destruct (js_eqb (sqlTypeOf sql) SELECT) eqn:S; [tauto|].
  split; intros Run; exfalso.
  - apply (Grow (lead ++ sql ++ trail) params (ErrorObject use_mysql_query)).
    + now rewrite K.
    + unfold callTool. rewrite K, S. exact Run.
  - apply (Grow sql params (ErrorObject use_mysql_query) S).
    unfold callTool. rewrite S. exact Run.
Qed.

Lemma statement_kind_ignores_surrounding_space_witness :
  sqlTypeOf ([TAB; SPACE; 10%N] ++ insert_statement ++ [13%N; 10%N]) = sqlTypeOf insert_statement
  /\ (callTool ok_driver (mysql_execute ([TAB; SPACE; 10%N] ++ insert_statement ++ [13%N; 10%N]) None) initial_world
      = (Throw (ErrorObject use_mysql_query), initial_world)
      <-> callTool ok_driver (mysql_execute insert_statement None) initial_world
          = (Throw (ErrorObject use_mysql_query), initial_world)).
Proof.
  apply (@statement_kind_ignores_surrounding_space ok_driver [TAB; SPACE; 10%N]
           insert_statement [13%N; 10%N] None initial_world);
    repeat constructor.
Defined.


(** ** X11: SELECT in any case *)

Lemma spells_SELECT kw :
  spells "SELECT" kw ->
  toUpperCase kw = SELECT
  /\ Forall (fun c => isWhiteSpace c = false) kw
  /\ exists a x, kw = a ++ [x].
Proof.
  unfold spells. intros F.
  set (word := u16 "SELECT") in F. vm_compute in word. subst word.
  repeat match goal with
         | H : Forall2 _ _ (_ :: _) |- _ => inversion H; clear H; subst
         | H : Forall2 _ _ [] |- _ => inversion H; clear H; subst
         end.
  repeat match goal with
         | H : _ \/ _ |- _ => destruct H; subst
         end;
    (split; [vm_compute; reflexivity|]);
    (split; [repeat constructor|]);
    eexists [_; _; _; _; _], _; reflexivity.
Qed.

(** The first token of a statement that starts, after white space, with a
    word of units that are no white space, and goes on with a space or with
    white space only. *)
Lemma first_token_after_trim lead kw tail :
  Forall (fun x => isWhiteSpace x = true) lead ->
  Forall (fun c => isWhiteSpace c = false) kw ->
  (exists a x, kw = a ++ [x]) ->
  Forall (fun x => isWhiteSpace x = true) tail
  \/ (exists t, tail = SPACE :: t) ->
  hd [] (split SPACE (trim (lead ++ kw ++ tail))) = kw.
Proof.
  intros L K (a & x & ->) T.
  assert (X : isWhiteSpace x = false).
  { apply Forall_app in K as [_ K]. now inversion K. }
  assert (NoSpace : forallb (fun c => negb (c =? SPACE)%N) (a ++ [x]) = true).
  { apply forallb_forall. intros c I. rewrite Forall_forall in K.
    specialize (K c I). destruct (N.eqb_spec c SPACE) as [->|]; [|reflexivity].
    discriminate K. }
  assert (Trim : trim (lead ++ (a ++ [x]) ++ tail)
                 = (a ++ [x]) ++ rev (dropWhile isWhiteSpace (rev tail))).
  { unfold trim. apply forallb_Forall_true in L.
    rewrite dropWhile_app_all by exact L.
    assert (Stop : dropWhile isWhiteSpace ((a ++ [x]) ++ tail)
                   = (a ++ [x]) ++ tail).
    { destruct a as [|y a]; simpl.
      - now rewrite X.
      - inversion K; subst.
        match goal with H : isWhiteSpace y = false |- _ => now rewrite H end. }
    rewrite Stop. now apply rtrim_app. }
  rewrite Trim, hd_split, takeWhile_app_all by exact NoSpace.
  destruct T as [T|[t ->]].
  - apply forallb_Forall_true in T. rewrite <- forallb_rev in T.
    apply dropWhile_nil_iff in T. rewrite T. simpl. now rewrite app_nil_r.
  - destruct (rtrim_prefix isWhiteSpace (SPACE :: t)) as (rest & E).
    destruct (rev (dropWhile isWhiteSpace (rev (SPACE :: t)))) as [|y r];
      simpl in *; [now rewrite app_nil_r|].
    injection E as <- _. simpl. now rewrite app_nil_r.
Qed.

(** X11. [mysql_execute] refuses, without touching the pool, every statement
    that consists of optional white space, the word SELECT in any mix of
    upper and lower case, and then either a space and anything, or nothing
    but white space. *)
Theorem mysql_execute_rejects_select_in_any_case drv lead kw tail params w :
  Forall (fun x => isWhiteSpace x = true) lead ->
  spells "SELECT" kw ->
  Forall (fun x => isWhiteSpace x = true) tail
  \/ (exists t, tail = SPACE :: t) ->
  callTool drv (mysql_execute (lead ++ kw ++ tail) params) w
  = (Throw (ErrorObject use_mysql_query), w).
Proof.
  intros L S T. apply spells_SELECT in S as (U & K & Last).
  apply mysql_execute_rejects_select_token_aux.
  now rewrite first_token_after_trim.
Qed.

Lemma mysql_execute_rejects_select_in_any_case_witness :
  callTool ok_driver (mysql_execute ([10%N; TAB] ++ (u16 "sElEcT") ++ (SPACE :: u16 "* from t")) None) initial_world
  = (Throw (ErrorObject use_mysql_query), initial_world).
Proof.
  apply (@mysql_execute_rejects_select_in_any_case ok_driver [10%N; TAB]
           (u16 "sElEcT") (SPACE :: u16 "* from t") None initial_world).
  - repeat constructor.
  - unfold spells. vm_compute.
    repeat (apply Forall2_cons;
            [first [left; reflexivity|right; reflexivity]|]).
    apply Forall2_nil.
  - right. eexists. reflexivity.
Defined.

(** ** X12: [describe_table] and its table name *)

Lemma executeQuery_asks_pool drv sql params w :
  exists ok rest,
    events (snd (executeQuery drv sql params w))
    = events w ++ EvGetConnection ok :: rest.
Proof.
  rewrite executeQuery_run.
  destruct (getConnection_error drv (events w)); [now exists false, []|].
  destruct (negb (safe (checkSQLSecurity sql))); [now exists true, []|].
  destruct (negb (safe (checkQueryLimits sql))); [now exists true, []|].
  simpl. oracle; simpl; rewrite <- ?app_assoc; simpl; eauto.
Qed.

Lemma history_grows (h : list Event) e rest : h ++ e :: rest <> h.
Proof.
  intros E. apply (f_equal (@List.length Event)) in E.
  rewrite length_app in E. simpl in E. lia.
Qed.

(** X12. [describe_table] fails with "Table name is required", before any
    connection is asked for, exactly when the table argument is missing or
    the empty string; with any other name it goes to the pool. *)
Theorem describe_table_requires_a_name drv table w :
  (table = None \/ table = Some [])
  <-> callTool drv (describe_table table) w
      = (Throw (ErrorObject (u16 "Table name is required")), w).
Proof.
  split.
  - intros [->| ->]; reflexivity.
  - intros Run. destruct table as [[|c t]|]; auto.
    exfalso. unfold callTool in Run. apply (f_equal snd) in Run.
    rewrite snd_bind_pure in Run by reflexivity. cbn [snd] in Run.
    destruct (executeQuery_asks_pool drv COLUMN_METADATA_QUERY
                [JsString (c :: t)] w) as (ok & rest & E).
    rewrite Run in E. symmetry in E. exact (@history_grows _ _ _ E).
Qed.

(** ** X13: the catalog tools are never stopped by the guard *)

(** X13. Whatever the table name is, even one that reads like a stacked
    statement, [describe_table] with a non-empty name on a granted
    connection sends the fixed catalog statement with the name as its only
    bound parameter: the name is never scanned by the guard nor spliced
    into the text.  What the server answers comes back unchanged in an
    envelope with [isError] clear, the connection is released, and one
    success entry of kind SELECT is logged. *)
Theorem describe_table_binds_the_name drv table results w :
  table <> [] ->
  getConnection_error drv (events w) = None ->
  query_result drv (events w ++ [EvGetConnection true]) COLUMN_METADATA_QUERY
    [JsString table] = inl results ->
  callTool drv (describe_table (Some table)) w
  = (Return {| content_text := JsonQueryResult results; isError := false |},
     add_log (monitored_entry SELECT COLUMN_METADATA_QUERY [JsString table]
                (clock (emit drv (EvGetConnection true) w))
                (Return results)
                (clock (emits drv [EvGetConnection true;
                                   EvQuery COLUMN_METADATA_QUERY
                                     [JsString table] true] w)))
       (emits drv [EvGetConnection true;
                   EvQuery COLUMN_METADATA_QUERY [JsString table] true;
                   EvRelease] w)).
Proof.
  intros N Acq Q. unfold callTool.
  destruct table as [|c t]; [contradiction|].
  unfold bind. rewrite executeQuery_run, Acq.
  replace (negb (safe (checkSQLSecurity COLUMN_METADATA_QUERY))) with false
    by (vm_compute; reflexivity).
  replace (negb (safe (checkQueryLimits COLUMN_METADATA_QUERY))) with false
    by (vm_compute; reflexivity).
  cbn [events emit]. rewrite Q. reflexivity.
Qed.

Lemma describe_table_binds_the_name_witness :
  callTool demo_driver (describe_table (Some hostile_table_name)) initial_world
  = (Return {| content_text := JsonQueryResult (RowData []); isError := false |},
     add_log (monitored_entry SELECT COLUMN_METADATA_QUERY [JsString hostile_table_name]
                (clock (emit demo_driver (EvGetConnection true) initial_world))
                (Return (RowData []))
                (clock (emits demo_driver [EvGetConnection true;
                                   EvQuery COLUMN_METADATA_QUERY
                                     [JsString hostile_table_name] true] initial_world)))
       (emits demo_driver [EvGetConnection true;
                   EvQuery COLUMN_METADATA_QUERY [JsString hostile_table_name] true;
                   EvRelease] initial_world)).
Proof.
  apply (@describe_table_binds_the_name demo_driver hostile_table_name
           (RowData []) initial_world).
  - discriminate.
  - reflexivity.
  - vm_compute. reflexivity.
Defined.


(** ** X14: the path of a resource *)

Lemma split_not_nil sep s : split sep s <> [].
Proof.
  destruct s as [|c s]; simpl; [discriminate|].
  destruct (c =? sep)%N; [discriminate|].
  destruct (split sep s); discriminate.
Qed.

Lemma split_app_sep sep a b :
  split sep (a ++ sep :: b) = split sep a ++ split sep b.
Proof.
  induction a as [|c a IH]; simpl.
  - now rewrite N.eqb_refl.
  - destruct (c =? sep)%N; [now rewrite IH|].
    rewrite IH. pose proof (split_not_nil sep a) as N.
    destruct (split sep a); [contradiction|reflexivity].
Qed.

Lemma split_no_sep sep b : ~ In sep b -> split sep b = [b].
Proof.
  induction b as [|c b IH]; simpl; [reflexivity|].
  intros N. destruct (N.eqb_spec c sep) as [->|_]; [exfalso; auto|].
  rewrite IH by auto. reflexivity.
Qed.

Lemma pop_snoc l x : pop (l ++ [x]) = (JsString x, l).
Proof.
  unfold pop. rewrite rev_app_distr. simpl. now rewrite rev_involutive.
Qed.

(** X14. For a path name [dir/name/leaf] (neither [name] nor [leaf] holding
    a slash), reading the resource looks at the last two components only:
    unless [leaf] is exactly "schema" it fails with "Invalid resource URI"
    before any connection is asked for; otherwise it runs the column query
    with [name] as its bound parameter, whatever [dir] is and even when
    [name] is empty. *)
Theorem readResource_reads_last_two_components drv dir name leaf w :
  ~ In SLASH name -> ~ In SLASH leaf ->
  readResource drv (dir ++ SLASH :: name ++ SLASH :: leaf) w
  = if js_eqb leaf (u16 "schema")
    then bind (executeQuery drv COLUMN_METADATA_QUERY [JsString name])
           (fun results =>
              ret {| contents_path := dir ++ SLASH :: name ++ SLASH :: leaf;
                     contents_text := JsonQueryResult results |}) w
    else (Throw (ErrorObject (u16 "Invalid resource URI")), w).
Proof.
  intros Nn Nl. unfold readResource.
  replace (dir ++ SLASH :: name ++ SLASH :: leaf)
    with ((dir ++ SLASH :: name) ++ SLASH :: leaf)
    by (now rewrite <- app_assoc).
  rewrite !split_app_sep, (@split_no_sep _ _ Nn), (@split_no_sep _ _ Nl).
  rewrite pop_snoc, pop_snoc.
  destruct (js_eqb leaf (u16 "schema")); reflexivity.
Qed.

Lemma readResource_reads_last_two_components_witness :
  readResource demo_driver ((u16 "/any/thing") ++ SLASH :: (u16 "orders") ++ SLASH :: (u16 "schema")) initial_world
  = if js_eqb (u16 "schema") (u16 "schema")
    then bind (executeQuery demo_driver COLUMN_METADATA_QUERY [JsString (u16 "orders")])
           (fun results =>
              ret {| contents_path := (u16 "/any/thing") ++ SLASH :: (u16 "orders") ++ SLASH :: (u16 "schema");
                     contents_text := JsonQueryResult results |}) initial_world
    else (Throw (ErrorObject (u16 "Invalid resource URI")), initial_world).
Proof.
  apply (@readResource_reads_last_two_components demo_driver
           (u16 "/any/thing") (u16 "orders") (u16 "schema") initial_world);
    vm_compute; intuition discriminate.
Defined.

(** A path with one component only: "schema" alone passes the check and
    the column query runs with an undefined parameter. *)
Example readResource_single_component :
  events (snd (readResource demo_driver (u16 "schema") initial_world))
  = [EvGetConnection true;
     EvQuery COLUMN_METADATA_QUERY [JsUndefined] true; EvRelease]
  /\ fst (readResource demo_driver (u16 "tables") initial_world)
     = Throw (ErrorObject (u16 "Invalid resource URI")).
Proof. split; vm_compute; reflexivity. Qed.

(** ** X15: the tool list and the dispatch by name *)

(** X15. The names the tool list advertises are exactly the names the call
    handler implements: a call under an advertised name reaches that tool's
    code, and a call under any other name fails with "未知的工具: " followed by
    the name, before any connection is asked for. *)
Theorem advertised_tools_are_the_implemented_ones drv p w :
  (In (call_name p) (map tool_name listTools)
   <-> requestOf p <> other_tool (call_name p))
  /\ (~ In (call_name p) (map tool_name listTools) ->
      handleCallTool drv p w
      = (Throw (ErrorObject (unknown_tool ++ call_name p)), w)).
Proof.
  assert (Known : In (call_name p) (map tool_name listTools)
                  <-> requestOf p <> other_tool (call_name p)).
  { unfold requestOf. cbn [map listTools tool_name In].
    destruct (js_eqb (call_name p) (u16 "mysql_query")) eqn:E1.
    { apply js_eqb_eq in E1. split; [discriminate|auto]. }
    destruct (js_eqb (call_name p) (u16 "mysql_execute")) eqn:E2.
    { apply js_eqb_eq in E2. split; [discriminate|auto]. }
    destruct (js_eqb (call_name p) (u16 "list_tables")) eqn:E3.
    { apply js_eqb_eq in E3. split; [discriminate|auto]. }
    destruct (js_eqb (call_name p) (u16 "describe_table")) eqn:E4.
    { apply js_eqb_eq in E4. split; [discriminate|auto 6]. }
    split; [|intros N; now contradiction N].
    intros [H|[H|[H|[H|[]]]]]; symmetry in H; apply js_eqb_eq in H; congruence. }
  split; [exact Known|].
  intros N. unfold handleCallTool.
  destruct (requestOf p) as [sql|sql ps| |table|nm] eqn:R;
    try (exfalso; apply N, Known; discriminate).
  assert (nm = call_name p) as ->.
  { unfold requestOf in R.
    repeat match type of R with
           | (if ?b then _ else _) = _ => destruct b; try discriminate
           end.
    now injection R as <-. }
  reflexivity.
Qed.


(** ** X16: statements without white space *)

Lemma Matches_needs_white_space ic p w :
  Matches ic p w ->
  existsb (fun t => match term_atom t, term_quant t with
                    | ClassWhiteSpace, OneOrMore => true
                    | _, _ => false
                    end) p = true ->
  exists c, In c w /\ isWhiteSpace c = true.
Proof.
  induction 1 as [|a p c w A M IH|a p rep w F M IH|a p c rep w A F M IH];
    simpl; intros E.
  - discriminate.
  - destruct a; simpl in E; destruct (IH E) as (x & I & X);
      exists x; split; auto using in_cons.
  - destruct a; simpl in E; destruct (IH E) as (x & I & X);
      exists x; (split; [apply in_or_app; now right|exact X]).
  - destruct a as [pc|]; simpl in E.
    + destruct (IH E) as (x & I & X). exists x.
      split; [right; apply in_or_app; now right|exact X].
    + exists c. split; [now left|exact A].
Qed.

(** X16. Every pattern of the denylist asks for at least one white-space
    unit, so the guard accepts every statement that holds none, whatever
    else it holds: a stacked DROP written with comments in place of the
    white space passes. *)
Theorem guard_accepts_statement_without_white_space sql :
  Forall (fun c => isWhiteSpace c = false) sql ->
  checkSQLSecurity sql = {| safe := true; reason := None |}.
Proof.
  intros NoWs.
  destruct (checkSQLSecurity_cases sql) as [U|S]; [exfalso|exact S].
  apply checkPatterns_unsafe_iff in U as (r & I & T).
  apply test_true_iff in T as (pre & w & post & -> & M).
  assert (N : needs_white_space r = true).
  { revert I. generalize r.
    apply Forall_forall. repeat constructor. }
  destruct (Matches_needs_white_space M N) as (c & Ic & C).
  rewrite Forall_forall in NoWs.
  rewrite (NoWs c) in C; [discriminate|].
  apply in_or_app. right. apply in_or_app. now left.
Qed.

Lemma guard_accepts_statement_without_white_space_witness :
  checkSQLSecurity stacked_without_space = {| safe := true; reason := None |}.
Proof.
  apply (@guard_accepts_statement_without_white_space stacked_without_space).
  vm_compute. repeat constructor.
Defined.

(** ** X17: what the generic executor logs *)

(** X17. Past the guards, on a granted connection, the generic executor
    logs one entry: kind SELECT whatever the statement is, the statement and
    its parameters as given, and as duration the time the statement took on
    the driver, the wait for the connection and the release not included.
    On success the entry carries the affected-row count of the driver's
    packet (none for a row array); on failure the message of the error. *)
Theorem executeQuery_log_entry drv sql params w :
  getConnection_error drv (events w) = None ->
  safe (checkSQLSecurity sql) = true ->
  safe (checkQueryLimits sql) = true ->
  exists entry,
    logs (snd (executeQuery drv sql params w)) = logs w ++ [entry]
    /\ operation entry = SELECT
    /\ log_sql entry = sql
    /\ log_params entry = params
    /\ duration entry = elapsed drv (events w ++ [EvGetConnection true])
    /\ match query_result drv (events w ++ [EvGetConnection true]) sql params
       with
       | inl results =>
           log_success entry = true
           /\ log_affectedRows entry = affectedRowsOf results
       | inr error =>
           log_success entry = false
           /\ log_error entry = Some (error_message error)
       end.
Proof.
  intros Acq G L. rewrite executeQuery_run, Acq, G, L. simpl.
  assert (D : forall a b : N, (a + b - a)%N = b) by (intros; lia).
  destruct (query_result drv _ sql params); simpl;
    (eexists; split; [reflexivity|]); simpl; rewrite D; repeat split.
Qed.

Lemma executeQuery_log_entry_witness :
  exists entry,
    logs (snd (executeQuery ok_driver insert_statement [JsString (u16 "1")] initial_world)) = logs initial_world ++ [entry]
    /\ operation entry = SELECT
    /\ log_sql entry = insert_statement
    /\ log_params entry = [JsString (u16 "1")]
    /\ duration entry = elapsed ok_driver (events initial_world ++ [EvGetConnection true])
    /\ match query_result ok_driver (events initial_world ++ [EvGetConnection true]) insert_statement [JsString (u16 "1")]
       with
       | inl results =>
           log_success entry = true
           /\ log_affectedRows entry = affectedRowsOf results
       | inr error =>
           log_success entry = false
           /\ log_error entry = Some (error_message error)
       end.
Proof.
  apply (@executeQuery_log_entry ok_driver insert_statement
           [JsString (u16 "1")] initial_world);
    vm_compute; reflexivity.
Defined.
